(** * YetAnotherPCInt: pin-change interrupt dispatch on AVR

    A shallow embedding of [src/YetAnotherPCInt.cpp]: the per-group
    registration table [PcIntPort], the handler body generated by
    [IMPLEMENT_ISR], and the four registration functions
    [PcInt::attachInterrupt], [detachInterrupt], [enableInterrupt] and
    [disableInterrupt].

    - [uint8_t] values are integers in [Z]; every conversion to
      [uint8_t] is written out as a reduction modulo 256.
    - Pointers ([volatile uint8_t *], [void *], the function pointer
      [PcInt::callback]) are addresses in [Z]; [nullptr] is 0.
    - The arrays [funcs[8]] and [args[8]] are vectors of length 8; an
      index outside 0..7 has no slot, and a function that would use
      one has no result.
    - The special function registers reached through [pcicr], [pcmsk]
      and [PCINT_INPUT_PORTn] live in an address-indexed register
      file; [SREG] is kept apart from it.
    - The board's pin tables, the Arduino mode constants and the code
      behind the registered callbacks are parameters. *)

From Stdlib Require Import ZArith Lia Bool List.
From stdpp Require Import base fin vector.
Import ListNotations.
Local Open Scope Z_scope.

(** ** Machine integers and pointers *)

(** Conversion of an [int] expression to [uint8_t]. *)
Definition uint8_t (x : Z) : Z := x mod 256.

(** [#define _BV(bit) (1 << (bit))] *)
Definition _BV (bit : Z) : Z := Z.shiftl 1 bit.

Definition is_uint8 (x : Z) : Prop := 0 <= x < 256.

(** Contextual conversion of an integer or a pointer to [bool]. *)
Definition truthy (x : Z) : bool := negb (x =? 0).

Definition ptr := Z.
Definition callback := Z.
Definition nullptr : Z := 0.

(** Index of an array of eight elements. *)
Definition index8 (i : Z) : option (fin 8) :=
  match i with
  | 0 => Some 0%fin
  | 1 => Some 1%fin
  | 2 => Some 2%fin
  | 3 => Some 3%fin
  | 4 => Some 4%fin
  | 5 => Some 5%fin
  | 6 => Some 6%fin
  | 7 => Some 7%fin
  | _ => None
  end.

Definition bit_of (i : fin 8) : Z := Z.of_nat (fin_to_nat i).

(** ** The registration table of one port group *)

Record PcIntPort := mkPort {
  funcs : vec callback 8;
  args : vec ptr 8;
  state : Z;
  rising : Z;
  falling : Z
}.

Definition set_func (i : fin 8) (f : callback) (p : PcIntPort) : PcIntPort :=
  mkPort (vinsert i f (funcs p)) (args p) (state p) (rising p) (falling p).

Definition set_arg (i : fin 8) (a : ptr) (p : PcIntPort) : PcIntPort :=
  mkPort (funcs p) (vinsert i a (args p)) (state p) (rising p) (falling p).

Definition set_state (v : Z) (p : PcIntPort) : PcIntPort :=
  mkPort (funcs p) (args p) v (rising p) (falling p).

Definition set_rising (v : Z) (p : PcIntPort) : PcIntPort :=
  mkPort (funcs p) (args p) (state p) v (falling p).

Definition set_falling (v : Z) (p : PcIntPort) : PcIntPort :=
  mkPort (funcs p) (args p) (state p) (rising p) v.

(** Storage of an object of static storage duration before its
    constructor runs: every byte is zero. *)
Definition zero_initialized : PcIntPort :=
  mkPort (vreplicate 8 0) (vreplicate 8 0) 0 0 0.

(** [PcIntPort::PcIntPort()]: the member initializer list names
    [funcs], [state], [rising] and [falling]; [args] is not in it and
    keeps what the storage held. *)
Definition PcIntPort_ctor (storage : PcIntPort) : PcIntPort :=
  mkPort (vreplicate 8 nullptr) (args storage) 0 0 0.

(** The namespace-scope objects [port0] .. [port3]. *)
Definition port_at_startup : PcIntPort := PcIntPort_ctor zero_initialized.

(** ** The machine *)

Inductive port_id := Port0 | Port1 | Port2 | Port3.

Record Machine := mkMachine {
  port0 : PcIntPort;
  port1 : PcIntPort;
  port2 : PcIntPort;
  port3 : PcIntPort;
  SREG : Z;
  sfr : Z -> Z
}.

Definition get (p : port_id) (m : Machine) : PcIntPort :=
  match p with
  | Port0 => port0 m
  | Port1 => port1 m
  | Port2 => port2 m
  | Port3 => port3 m
  end.

Definition upd_port (p : port_id) (f : PcIntPort -> PcIntPort) (m : Machine) : Machine :=
  match p with
  | Port0 => mkMachine (f (port0 m)) (port1 m) (port2 m) (port3 m) (SREG m) (sfr m)
  | Port1 => mkMachine (port0 m) (f (port1 m)) (port2 m) (port3 m) (SREG m) (sfr m)
  | Port2 => mkMachine (port0 m) (port1 m) (f (port2 m)) (port3 m) (SREG m) (sfr m)
  | Port3 => mkMachine (port0 m) (port1 m) (port2 m) (f (port3 m)) (SREG m) (sfr m)
  end.

Definition set_SREG (v : Z) (m : Machine) : Machine :=
  mkMachine (port0 m) (port1 m) (port2 m) (port3 m) v (sfr m).

(** [*reg = v] through a [volatile uint8_t *]. *)
Definition store (reg : Z) (v : Z) (m : Machine) : Machine :=
  mkMachine (port0 m) (port1 m) (port2 m) (port3 m) (SREG m)
            (fun a => if a =? reg then v else sfr m a).

(** [noInterrupts()] is the [cli] instruction: it clears the I flag,
    bit 7 of [SREG]. *)
Definition noInterrupts (m : Machine) : Machine :=
  set_SREG (Z.clearbit (SREG m) 7) m.

Definition interrupts_enabled (m : Machine) : bool := Z.testbit (SREG m) 7.

(** The machine when [main] starts, whatever the registers hold. *)
Definition startup (sreg : Z) (regs : Z -> Z) : Machine :=
  mkMachine port_at_startup port_at_startup port_at_startup port_at_startup sreg regs.

(** One call of a registered callback, as the handler makes it. The
    slot is recorded next to the three values the call passes. *)
Record invocation := mkInvocation {
  inv_slot : fin 8;
  inv_func : callback;
  inv_arg : ptr;
  inv_level : bool
}.

(** ** The handler body *)

Section Dispatcher.

(** What the code behind a callback does to the machine when it is
    called with an argument and a level. *)
Variable user_code : callback -> ptr -> bool -> Machine -> Machine.

(** [uint8_t trigger_pins = (port.state ^ new_state) &
    ((port.rising & new_state) | (port.falling & ~new_state));] *)
Definition trigger_pins (port : PcIntPort) (new_state : Z) : Z :=
  uint8_t (Z.land (Z.lxor (state port) new_state)
                  (Z.lor (Z.land (rising port) new_state)
                         (Z.land (falling port) (Z.lnot new_state)))).

(** The body of the [for] statement for one value of [nr]. *)
Definition isr_body (p : port_id) (trigger new_state nr : Z) (i : fin 8)
    (m : Machine) (log : list invocation) : Machine * list invocation :=
  if truthy (Z.land trigger (_BV nr)) && truthy (funcs (get p m) !!! i) then
    let f := funcs (get p m) !!! i in
    let a := args (get p m) !!! i in
    let level := truthy (Z.land (_BV nr) new_state) in
    (user_code f a level m, log ++ [mkInvocation i f a level])
  else (m, log).

(** [for (uint8_t nr = 0; nr < 8; ++nr) { ... }], entered with the
    current value of [nr]. *)
Fixpoint isr_loop (fuel : nat) (p : port_id) (trigger new_state nr : Z)
    (m : Machine) (log : list invocation) : option (Machine * list invocation) :=
  match fuel with
  | O => None
  | S fuel' =>
      if nr <? 8 then
        match index8 nr with
        | Some i =>
            let '(m', log') := isr_body p trigger new_state nr i m log in
            isr_loop fuel' p trigger new_state (uint8_t (nr + 1)) m' log'
        | None => None
        end
      else Some (m, log)
  end.

(** [IMPLEMENT_ISR(port, isr_vect, pin_register)]: the handler of
    the group whose table is [port] and whose input register is at
    [pin_register]. It returns the machine it leaves and the calls
    it made, in the order it made them. *)
Definition IMPLEMENT_ISR (p : port_id) (pin_register : Z) (m : Machine)
    : option (Machine * list invocation) :=
  let new_state := uint8_t (sfr m pin_register) in
  let trigger := trigger_pins (get p m) new_state in
  let m1 := upd_port p (set_state new_state) m in
  isr_loop 9 p trigger new_state 0 m1 [].

End Dispatcher.

(** ** The board *)

(** What the file takes from [Arduino.h], [pins_arduino.h] and
    [PinChangeInterruptBoards.h]: the four pin macros, the input
    register of each group the board has ([None] where
    [PCINT_INPUT_PORTn] is not defined) and the mode constants. *)
Class Board := {
  digitalPinToPCICR : Z -> Z;
  digitalPinToPCMSK : Z -> Z;
  digitalPinToPCICRbit : Z -> Z;
  digitalPinToPCMSKbit : Z -> Z;
  PCINT_INPUT_PORT : port_id -> option Z;
  RISING : Z;
  FALLING : Z;
  CHANGE : Z
}.

(** ** Statements that an interrupt can separate *)

(** A piece of foreground code as a sequence of steps. A step reads
    the machine, changes it, and chooses what follows from what it
    read. [Fault] is an access outside an array. *)
Inductive thread :=
| Ret
| Fault
| Step (f : Machine -> Machine) (k : Machine -> thread).

Notation "f ;> t" := (Step f (fun _ => t)) (at level 65, right associativity).

Fixpoint run (t : thread) (m : Machine) : option Machine :=
  match t with
  | Ret => Some m
  | Fault => None
  | Step f k => run (k m) (f m)
  end.

(** [#define WITHOUT_INTERRUPTION(CODE)
       {uint8_t sreg = SREG; noInterrupts(); {CODE} SREG = sreg;}] *)
Definition WITHOUT_INTERRUPTION (CODE : thread -> thread) : thread :=
  Step (fun m => m) (fun m =>
    let sreg := uint8_t (SREG m) in
    noInterrupts ;> CODE (set_SREG sreg ;> Ret)).

(** A read through a [volatile uint8_t *]. *)
Definition load (reg : Z) (m : Machine) : Z := uint8_t (sfr m reg).

(** [*reg |= v;] and [*reg &= v;] *)
Definition or_into (reg v : Z) (m : Machine) : Machine :=
  store reg (uint8_t (Z.lor (load reg m) v)) m.

Definition and_into (reg v : Z) (m : Machine) : Machine :=
  store reg (uint8_t (Z.land (load reg m) v)) m.

(** The machine after [*pcmsk &= ~bitmask; if (!*pcmsk) { *pcicr &=
    ~groupmask; }], used to state what [mask_off] below leaves. *)
Definition masked_off (pcicr pcmsk bitmask groupmask : Z) (m : Machine) : Machine :=
  if load pcmsk (and_into pcmsk (Z.lnot bitmask) m) =? 0
  then and_into pcicr (Z.lnot groupmask) (and_into pcmsk (Z.lnot bitmask) m)
  else and_into pcmsk (Z.lnot bitmask) m.

(** ** The registration functions *)

Section Registration.

Context {board : Board}.

Definition get_port (port : Z) : option port_id :=
  match port with
  | 0 => match PCINT_INPUT_PORT Port0 with Some _ => Some Port0 | None => None end
  | 1 => match PCINT_INPUT_PORT Port1 with Some _ => Some Port1 | None => None end
  | 2 => match PCINT_INPUT_PORT Port2 with Some _ => Some Port2 | None => None end
  | 3 => match PCINT_INPUT_PORT Port3 with Some _ => Some Port3 | None => None end
  | _ => None
  end.

Definition get_port_value (port : Z) (m : Machine) : Z :=
  match port with
  | 0 => match PCINT_INPUT_PORT Port0 with Some reg => load reg m | None => 0 end
  | 1 => match PCINT_INPUT_PORT Port1 with Some reg => load reg m | None => 0 end
  | 2 => match PCINT_INPUT_PORT Port2 with Some reg => load reg m | None => 0 end
  | 3 => match PCINT_INPUT_PORT Port3 with Some reg => load reg m | None => 0 end
  | _ => 0
  end.

(** [port->state = (port->state & ~portBitMask) |
                   (get_port_value(portGroup) & portBitMask);] *)
Definition refresh_state (p : port_id) (portGroup portBitMask : Z) (m : Machine) : Machine :=
  upd_port p (fun port =>
    set_state (uint8_t (Z.lor (Z.land (state port) (Z.lnot portBitMask))
                              (Z.land (get_port_value portGroup m) portBitMask))) port) m.

(** The statements under [WITHOUT_INTERRUPTION] in [attachInterrupt]. *)
Definition attach_code (p : port_id) (i : fin 8)
    (pin pcicr pcmsk portGroup portBitMask : Z) (func : callback) (arg : ptr) (mode : Z)
    (rest : thread) : thread :=
  upd_port p (set_func i func) ;>
  upd_port p (set_arg i arg) ;>
  upd_port p (fun port =>
    set_rising (uint8_t (if (mode =? RISING) || (mode =? CHANGE)
                         then Z.lor (rising port) portBitMask
                         else Z.land (rising port) (Z.lnot portBitMask))) port) ;>
  upd_port p (fun port =>
    set_falling (uint8_t (if (mode =? FALLING) || (mode =? CHANGE)
                          then Z.lor (falling port) portBitMask
                          else Z.land (falling port) (Z.lnot portBitMask))) port) ;>
  or_into pcmsk portBitMask ;>
  or_into pcicr (_BV (digitalPinToPCICRbit pin)) ;>
  refresh_state p portGroup portBitMask ;>
  rest.

(** [void PcInt::attachInterrupt(uint8_t pin, callback func, void* arg,
    uint8_t mode)]. The operands of [pcicr && pcmsk && port && func]
    read no memory; [port] is looked at first here, to name the
    table the statements work on. *)
Definition attachInterrupt_thread (pin : Z) (func : callback) (arg : ptr) (mode : Z) : thread :=
  let pcicr := digitalPinToPCICR pin in
  let pcmsk := digitalPinToPCMSK pin in
  let portGroup := uint8_t (digitalPinToPCICRbit pin) in
  let portBit := uint8_t (digitalPinToPCMSKbit pin) in
  let portBitMask := uint8_t (_BV portBit) in
  match get_port portGroup with
  | Some p =>
      if truthy pcicr && truthy pcmsk && truthy func then
        match index8 portBit with
        | Some i =>
            WITHOUT_INTERRUPTION
              (attach_code p i pin pcicr pcmsk portGroup portBitMask func arg mode)
        | None => Fault
        end
      else Ret
  | None => Ret
  end.

Definition attachInterrupt (pin : Z) (func : callback) (arg : ptr) (mode : Z)
    (m : Machine) : option Machine :=
  run (attachInterrupt_thread pin func arg mode) m.

(** [*pcmsk &= ~portBitMask; if (!*pcmsk) { *pcicr &= ~_BV(...); }] *)
Definition mask_off (pin pcicr pcmsk portBitMask : Z) (rest : thread) : thread :=
  and_into pcmsk (Z.lnot portBitMask) ;>
  Step (fun m => m) (fun m =>
    if negb (truthy (load pcmsk m)) then
      and_into pcicr (Z.lnot (_BV (digitalPinToPCICRbit pin))) ;> rest
    else rest).

(** The statements under [WITHOUT_INTERRUPTION] in [detachInterrupt]. *)
Definition detach_code (p : port_id) (i : fin 8)
    (pin pcicr pcmsk portBitMask : Z) (rest : thread) : thread :=
  upd_port p (set_func i nullptr) ;>
  upd_port p (set_arg i nullptr) ;>
  upd_port p (fun port =>
    set_rising (uint8_t (Z.land (rising port) (Z.lnot portBitMask))) port) ;>
  upd_port p (fun port =>
    set_falling (uint8_t (Z.land (falling port) (Z.lnot portBitMask))) port) ;>
  mask_off pin pcicr pcmsk portBitMask rest.

(** [void PcInt::detachInterrupt(uint8_t pin)] *)
Definition detachInterrupt_thread (pin : Z) : thread :=
  let pcicr := digitalPinToPCICR pin in
  let pcmsk := digitalPinToPCMSK pin in
  let portGroup := uint8_t (digitalPinToPCICRbit pin) in
  let portBit := uint8_t (digitalPinToPCMSKbit pin) in
  let portBitMask := uint8_t (_BV portBit) in
  match get_port portGroup with
  | Some p =>
      if truthy pcicr && truthy pcmsk then
        match index8 portBit with
        | Some i => WITHOUT_INTERRUPTION (detach_code p i pin pcicr pcmsk portBitMask)
        | None => Fault
        end
      else Ret
  | None => Ret
  end.

Definition detachInterrupt (pin : Z) (m : Machine) : option Machine :=
  run (detachInterrupt_thread pin) m.

(** The statements under [WITHOUT_INTERRUPTION] in [enableInterrupt]. *)
Definition enable_code (p : port_id)
    (pin pcicr pcmsk portGroup portBitMask : Z) (rest : thread) : thread :=
  or_into pcmsk portBitMask ;>
  or_into pcicr (_BV (digitalPinToPCICRbit pin)) ;>
  refresh_state p portGroup portBitMask ;>
  rest.

(** [void PcInt::enableInterrupt(uint8_t pin)]. The last operand of
    the condition reads [port->funcs[portBit]]; it is evaluated
    only when the three before it hold. *)
Definition enableInterrupt_thread (pin : Z) : thread :=
  let pcicr := digitalPinToPCICR pin in
  let pcmsk := digitalPinToPCMSK pin in
  let portGroup := uint8_t (digitalPinToPCICRbit pin) in
  let portBit := uint8_t (digitalPinToPCMSKbit pin) in
  let portBitMask := uint8_t (_BV portBit) in
  match get_port portGroup with
  | Some p =>
      if truthy pcicr && truthy pcmsk then
        match index8 portBit with
        | Some i =>
            Step (fun m => m) (fun m =>
              if truthy (funcs (get p m) !!! i) then
                WITHOUT_INTERRUPTION (enable_code p pin pcicr pcmsk portGroup portBitMask)
              else Ret)
        | None => Fault
        end
      else Ret
  | None => Ret
  end.

Definition enableInterrupt (pin : Z) (m : Machine) : option Machine :=
  run (enableInterrupt_thread pin) m.

(** [void PcInt::disableInterrupt(uint8_t pin)]. No array is
    indexed here. *)
Definition disableInterrupt_thread (pin : Z) : thread :=
  let pcicr := digitalPinToPCICR pin in
  let pcmsk := digitalPinToPCMSK pin in
  let portGroup := uint8_t (digitalPinToPCICRbit pin) in
  let portBit := uint8_t (digitalPinToPCMSKbit pin) in
  let portBitMask := uint8_t (_BV portBit) in
  match get_port portGroup with
  | Some p =>
      if truthy pcicr && truthy pcmsk then
        WITHOUT_INTERRUPTION (mask_off pin pcicr pcmsk portBitMask)
      else Ret
  | None => Ret
  end.

Definition disableInterrupt (pin : Z) (m : Machine) : option Machine :=
  run (disableInterrupt_thread pin) m.

(** A pin as the four functions resolve it: both register pointers
    are not null, the group number fits the [uint8_t] it is kept in
    and has a table, and the bit indexes a slot. *)
Record resolves (pin : Z) (p : port_id) (i : fin 8) : Prop := {
  res_pcicr : digitalPinToPCICR pin <> 0;
  res_pcmsk : digitalPinToPCMSK pin <> 0;
  res_group : is_uint8 (digitalPinToPCICRbit pin);
  res_port : get_port (uint8_t (digitalPinToPCICRbit pin)) = Some p;
  res_bit : index8 (uint8_t (digitalPinToPCMSKbit pin)) = Some i
}.

(** A pin that no function accepts. *)
Definition unmapped (pin : Z) : Prop :=
  digitalPinToPCICR pin = 0 \/ digitalPinToPCMSK pin = 0 \/
  get_port (uint8_t (digitalPinToPCICRbit pin)) = None.

(** ** Foreground code and handlers together *)

Variable user_code : callback -> ptr -> bool -> Machine -> Machine.

(** One step of the whole machine: the foreground code runs its
    next step, or a pin-change interrupt of a group the board has is
    recognised, which takes the I flag of [SREG] to be set, and its
    handler runs to its end. *)
Inductive istep : thread * Machine -> thread * Machine -> Prop :=
| istep_foreground f k m :
    istep (Step f k, m) (k m, f m)
| istep_interrupt t m q reg m' log :
    interrupts_enabled m = true ->
    PCINT_INPUT_PORT q = Some reg ->
    IMPLEMENT_ISR user_code q reg m = Some (m', log) ->
    istep (t, m) (t, m').

Inductive isteps : thread * Machine -> thread * Machine -> Prop :=
| isteps_refl c : isteps c c
| isteps_step c1 c2 c3 : istep c1 c2 -> isteps c2 c3 -> isteps c1 c3.

End Registration.

(** What a handler reads of the registration of a group: the two
    arrays, the two mode masks and the mask register. *)
Record registration := mkRegistration {
  reg_funcs : vec callback 8;
  reg_args : vec ptr 8;
  reg_rising : Z;
  reg_falling : Z;
  reg_mask : Z
}.

Definition registration_of (p : port_id) (pcmsk : Z) (m : Machine) : registration :=
  mkRegistration (funcs (get p m)) (args (get p m))
                 (rising (get p m)) (falling (get p m)) (load pcmsk m).

(** Callbacks that leave the registration of a group alone. *)
Definition keeps_registration
    (user_code : callback -> ptr -> bool -> Machine -> Machine)
    (p : port_id) (pcmsk : Z) : Prop :=
  forall f a level m,
    registration_of p pcmsk (user_code f a level m) = registration_of p pcmsk m.

(** The registration after the statements of [attach_code], from the
    registration before them. The write to the control register
    shows in the mask only if both pointers are the same register. *)
Definition attach_registration `{board : Board} (pin : Z) (i : fin 8)
    (func : callback) (arg : ptr) (mode : Z) (r : registration) : registration :=
  let portBitMask := _BV (bit_of i) in
  let mask := uint8_t (Z.lor (reg_mask r) portBitMask) in
  mkRegistration
    (vinsert i func (reg_funcs r))
    (vinsert i arg (reg_args r))
    (uint8_t (if (mode =? RISING) || (mode =? CHANGE)
              then Z.lor (reg_rising r) portBitMask
              else Z.land (reg_rising r) (Z.lnot portBitMask)))
    (uint8_t (if (mode =? FALLING) || (mode =? CHANGE)
              then Z.lor (reg_falling r) portBitMask
              else Z.land (reg_falling r) (Z.lnot portBitMask)))
    (if digitalPinToPCICR pin =? digitalPinToPCMSK pin
     then uint8_t (Z.lor mask (_BV (digitalPinToPCICRbit pin)))
     else mask).

(** The rest [t] of a critical section, entered on [m]: every step
    but the last leaves the I flag clear, and the last step, after
    which nothing follows, leaves the registration [post]. *)
Inductive closes (p : port_id) (pcmsk : Z) (post : registration)
    : thread -> Machine -> Prop :=
| closes_last f m :
    registration_of p pcmsk (f m) = post ->
    closes p pcmsk post (f ;> Ret) m
| closes_step f k m :
    interrupts_enabled (f m) = false ->
    closes p pcmsk post (k m) (f m) ->
    closes p pcmsk post (Step f k) m.

(** Where a call of [attachInterrupt] on a resolved pin can be, with
    [pre] the registration when it was called: before the critical
    section with the registration still [pre], inside it with the I
    flag clear, or returned with the registration it makes of [pre]. *)
Inductive attach_stage `{board : Board} (pin : Z) (p : port_id) (i : fin 8)
    (func : callback) (arg : ptr) (mode : Z) (pre : registration)
    : thread -> Machine -> Prop :=
| stage_called m :
    registration_of p (digitalPinToPCMSK pin) m = pre ->
    attach_stage pin p i func arg mode pre
      (WITHOUT_INTERRUPTION
         (attach_code p i pin (digitalPinToPCICR pin) (digitalPinToPCMSK pin)
            (uint8_t (digitalPinToPCICRbit pin)) (_BV (bit_of i)) func arg mode)) m
| stage_saved sreg m :
    registration_of p (digitalPinToPCMSK pin) m = pre ->
    attach_stage pin p i func arg mode pre
      (noInterrupts ;>
       attach_code p i pin (digitalPinToPCICR pin) (digitalPinToPCMSK pin)
         (uint8_t (digitalPinToPCICRbit pin)) (_BV (bit_of i)) func arg mode
         (set_SREG sreg ;> Ret)) m
| stage_critical t m :
    interrupts_enabled m = false ->
    closes p (digitalPinToPCMSK pin) (attach_registration pin i func arg mode pre) t m ->
    attach_stage pin p i func arg mode pre t m
| stage_returned m :
    registration_of p (digitalPinToPCMSK pin) m =
      attach_registration pin i func arg mode pre ->
    attach_stage pin p i func arg mode pre Ret m.

(** The registration after the statements of [detach_code], from the
    registration before them. *)
Definition detach_registration (i : fin 8) (r : registration) : registration :=
  mkRegistration
    (vinsert i nullptr (reg_funcs r))
    (vinsert i nullptr (reg_args r))
    (uint8_t (Z.land (reg_rising r) (Z.lnot (_BV (bit_of i)))))
    (uint8_t (Z.land (reg_falling r) (Z.lnot (_BV (bit_of i)))))
    (uint8_t (Z.land (reg_mask r) (Z.lnot (_BV (bit_of i))))).

(** Where a function that is [WITHOUT_INTERRUPTION(CODE)] and nothing
    else can be, with [pre] the registration when it was called and
    [post] the one [CODE] makes of it: the four places of
    [attach_stage], for any [CODE]. *)
Inductive critical_stage (p : port_id) (pcmsk : Z) (CODE : thread -> thread)
    (pre post : registration) : thread -> Machine -> Prop :=
| critical_called m :
    registration_of p pcmsk m = pre ->
    critical_stage p pcmsk CODE pre post (WITHOUT_INTERRUPTION CODE) m
| critical_saved sreg m :
    registration_of p pcmsk m = pre ->
    critical_stage p pcmsk CODE pre post
      (noInterrupts ;> CODE (set_SREG sreg ;> Ret)) m
| critical_inside t m :
    interrupts_enabled m = false ->
    closes p pcmsk post t m ->
    critical_stage p pcmsk CODE pre post t m
| critical_returned m :
    registration_of p pcmsk m = post ->
    critical_stage p pcmsk CODE pre post Ret m.

(** ** An example board: the ATmega328P of the Arduino Uno *)

Module Uno.

Definition PCICR : Z := 104.
Definition PCMSK0 : Z := 107.
Definition PCMSK1 : Z := 108.
Definition PCMSK2 : Z := 109.
Definition PINB : Z := 35.
Definition PINC : Z := 38.
Definition PIND : Z := 41.

Definition board : Board := {|
  digitalPinToPCICR p := if (0 <=? p) && (p <=? 21) then PCICR else 0;
  digitalPinToPCMSK p :=
    if p <=? 7 then PCMSK2 else if p <=? 13 then PCMSK0
    else if p <=? 21 then PCMSK1 else 0;
  digitalPinToPCICRbit p := if p <=? 7 then 2 else if p <=? 13 then 0 else 1;
  digitalPinToPCMSKbit p := if p <=? 7 then p else if p <=? 13 then p - 8 else p - 14;
  PCINT_INPUT_PORT q :=
    match q with
    | Port0 => Some PINB
    | Port1 => Some PINC
    | Port2 => Some PIND
    | Port3 => None
    end;
  RISING := 3;
  FALLING := 2;
  CHANGE := 1
|}.

(** Callbacks that copy the level to bit 5 of PORTB. *)
Definition led : callback -> ptr -> bool -> Machine -> Machine :=
  fun _ _ level m => store 37 (if level then 32 else 0) m.

(** A machine after reset: interrupts on, every register zero. *)
Definition reset : Machine := startup 128 (fun _ => 0).

(** Pin 8 (group 0, bit 0) attached with CHANGE and pin 9 (group 0,
    bit 1) with RISING, snapshot 0, both pins now high. *)
Definition armed : Machine :=
  mkMachine
    (mkPort [# 1000; 1001; 0; 0; 0; 0; 0; 0] [# 2000; 2001; 0; 0; 0; 0; 0; 0] 0 3 1)
    port_at_startup port_at_startup port_at_startup 128
    (fun a => if a =? PINB then 3 else if a =? PCMSK0 then 3
              else if a =? PCICR then 1 else 0).

(** The machine a call returned, for calls that do return. *)
Definition returned (r : option Machine) : Machine :=
  match r with
  | Some m => m
  | None => reset
  end.

End Uno.

(** ** The dispatch rule in the words of the design

    The three words of the rule over 8-bit values, with NOT as the
    complement of an 8-bit word, and the calls one run of the handler
    makes, slot by slot. They are compared with the code below. *)

Definition not8 (x : Z) : Z := 255 - x.

Definition spec_changed (last_state new_value : Z) : Z := Z.lxor last_state new_value.

Definition spec_qualifies (rising_enabled falling_enabled new_value : Z) : Z :=
  Z.lor (Z.land rising_enabled new_value) (Z.land falling_enabled (not8 new_value)).

Definition spec_trigger (last_state rising_enabled falling_enabled new_value : Z) : Z :=
  Z.land (spec_changed last_state new_value)
         (spec_qualifies rising_enabled falling_enabled new_value).

(** A bit triggers when its level differs from the snapshot and its
    new level is the one its mode asks for. *)
Definition bit_triggers (port : PcIntPort) (new_value : Z) (i : fin 8) : bool :=
  xorb (Z.testbit (state port) (bit_of i)) (Z.testbit new_value (bit_of i)) &&
  ((Z.testbit (rising port) (bit_of i) && Z.testbit new_value (bit_of i)) ||
   (Z.testbit (falling port) (bit_of i) && negb (Z.testbit new_value (bit_of i)))).

(** The slots in ascending order. *)
Definition slots : list (fin 8) := [0; 1; 2; 3; 4; 5; 6; 7]%fin.

Definition invocation_of (port : PcIntPort) (new_value : Z) (i : fin 8) : invocation :=
  mkInvocation i (funcs port !!! i) (args port !!! i) (Z.testbit new_value (bit_of i)).

Definition delivers (port : PcIntPort) (new_value : Z) (i : fin 8) : bool :=
  bit_triggers port new_value i && truthy (funcs port !!! i).

Definition invocations_over (port : PcIntPort) (new_value : Z) (l : list (fin 8))
    : list invocation :=
  map (invocation_of port new_value) (List.filter (delivers port new_value) l).

Definition expected_invocations (port : PcIntPort) (new_value : Z) : list invocation :=
  invocations_over port new_value slots.

(** The machine after the callbacks of a list of calls ran in order. *)
Definition after_calls (user_code : callback -> ptr -> bool -> Machine -> Machine)
    (calls : list invocation) (m : Machine) : Machine :=
  fold_left (fun acc c => user_code (inv_func c) (inv_arg c) (inv_level c) acc) calls m.

(** The turn of slot [i] in one pass over the slots: when its bit
    triggers, by the table the pass started from, and the callback
    the slot holds at that moment is not null, that callback is
    called with the argument the slot holds and the level of the bit
    in [new_value]. *)
Definition spec_deliver_slot (user_code : callback -> ptr -> bool -> Machine -> Machine)
    (p : port_id) (table : PcIntPort) (new_value : Z)
    (acc : Machine * list invocation) (i : fin 8) : Machine * list invocation :=
  let m := fst acc in
  if bit_triggers table new_value i && truthy (funcs (get p m) !!! i) then
    let c := mkInvocation i (funcs (get p m) !!! i) (args (get p m) !!! i)
                          (Z.testbit new_value (bit_of i)) in
    (user_code (inv_func c) (inv_arg c) (inv_level c) m, snd acc ++ [c])
  else acc.

(** One run of the dispatcher in the words of the design: the
    snapshot becomes [new_value], then the slots have their turn in
    ascending order. *)
Definition spec_dispatch (user_code : callback -> ptr -> bool -> Machine -> Machine)
    (p : port_id) (new_value : Z) (m : Machine) : Machine * list invocation :=
  fold_left (spec_deliver_slot user_code p (get p m) new_value) slots
            (upd_port p (set_state new_value) m, []).

(** Callbacks that leave the two arrays of the table of [p] alone. *)
Definition keeps_slots (user_code : callback -> ptr -> bool -> Machine -> Machine)
    (p : port_id) : Prop :=
  forall f a level m,
    funcs (get p (user_code f a level m)) = funcs (get p m) /\
    args (get p (user_code f a level m)) = args (get p m).

(** The slots the loop has still to visit when it is entered with
    [nr]. *)
Inductive remaining : Z -> list (fin 8) -> Prop :=
| remaining_done : remaining 8 []
| remaining_slot nr i l :
    index8 nr = Some i -> remaining (nr + 1) l -> remaining nr (i :: l).

(** The snapshot of the table of [p] in [m'] differs from the one in
    [m] in bit [i] at most, and that bit is the bit of the input
    register [reg]. *)
Definition refreshes_only (p : port_id) (i : fin 8) (reg : Z) (m m' : Machine) : Prop :=
  Z.testbit (state (get p m')) (bit_of i) = Z.testbit (load reg m') (bit_of i) /\
  forall j : fin 8,
    j <> i ->
    Z.testbit (state (get p m')) (bit_of j) = Z.testbit (state (get p m)) (bit_of j).

(** Callbacks that leave the snapshot of the table of [p] and the
    input register [reg] alone. *)
Definition keeps_snapshot (user_code : callback -> ptr -> bool -> Machine -> Machine)
    (p : port_id) (reg : Z) : Prop :=
  forall f a level m,
    state (get p (user_code f a level m)) = state (get p m) /\
    load reg (user_code f a level m) = load reg m.

(** The calls of a list that are for slot [i]. *)
Definition calls_for (i : fin 8) (calls : list invocation) : list invocation :=
  List.filter (fun c => bool_decide (inv_slot c = i)) calls.

(** Reduction of the field accessors over the field updates. *)
Ltac port_fields :=
  cbn [funcs args state rising falling set_func set_arg set_state set_rising set_falling].

(** ** Bits of [uint8_t] values *)

Lemma testbit_uint8_t (x n : Z) :
  Z.testbit (uint8_t x) n = (n <? 8) && Z.testbit x n.
Proof.
  unfold uint8_t. change 256 with (2 ^ 8).
  destruct (Z.ltb_spec n 8) as [Hlt | Hge]; simpl.
  - destruct (Z.neg_nonneg_cases n) as [Hneg | Hpos].
    + now rewrite !Z.testbit_neg_r.
    + apply Z.mod_pow2_bits_low. lia.
  - apply Z.mod_pow2_bits_high. lia.
Qed.

Lemma testbit_BV (n k : Z) : 0 <= n -> Z.testbit (_BV n) k = (k =? n).
Proof.
  intros Hn. unfold _BV.
  destruct (Z.neg_nonneg_cases k) as [Hneg | Hpos].
  - rewrite Z.testbit_neg_r by lia. symmetry. apply Z.eqb_neq. lia.
  - rewrite Z.shiftl_spec by lia.
    destruct (Z.eqb_spec k n) as [-> | Hne].
    + now rewrite Z.sub_diag.
    + destruct (Z.lt_ge_cases k n).
      * apply Z.testbit_neg_r. lia.
      * apply Z.bits_above_log2; simpl; lia.
Qed.

Lemma BV_pow2 (n : Z) : 0 <= n -> _BV n = 2 ^ n.
Proof. intros Hn. unfold _BV. rewrite Z.shiftl_1_l. reflexivity. Qed.

Lemma truthy_land_BV (x n : Z) :
  0 <= n -> truthy (Z.land x (_BV n)) = Z.testbit x n.
Proof.
  intros Hn. unfold truthy.
  destruct (Z.testbit x n) eqn:Hb.
  - apply negb_true_iff, Z.eqb_neq. intros Hz.
    assert (Hk : Z.testbit (Z.land x (_BV n)) n = true).
    { rewrite Z.land_spec, Hb, testbit_BV, Z.eqb_refl by lia. reflexivity. }
    rewrite Hz, Z.bits_0 in Hk. discriminate.
  - apply negb_false_iff, Z.eqb_eq, Z.bits_inj'. intros k Hk.
    rewrite Z.land_spec, Z.bits_0, testbit_BV by lia.
    destruct (Z.eqb_spec k n) as [-> | Hne].
    + now rewrite Hb.
    + apply andb_false_r.
Qed.

Lemma truthy_BV_land (x n : Z) :
  0 <= n -> truthy (Z.land (_BV n) x) = Z.testbit x n.
Proof. intros Hn. rewrite Z.land_comm. now apply truthy_land_BV. Qed.

Lemma bit_of_range (i : fin 8) : 0 <= bit_of i < 8.
Proof.
  unfold bit_of. pose proof (fin_to_nat_lt i). lia.
Qed.

Lemma index8_bit_of (i : fin 8) : index8 (bit_of i) = Some i.
Proof.
  unfold bit_of.
  repeat (inv_fin i; [reflexivity | intros i]).
  inv_fin i.
Qed.

Lemma index8_Some (z : Z) (i : fin 8) : index8 z = Some i -> z = bit_of i.
Proof.
  unfold index8.
  destruct z as [ | [ [ [ | | ] | [ | | ] | ] | [ [ | | ] | [ | | ] | ] | ] | ];
    intros H; try discriminate; injection H as <-; reflexivity.
Qed.

Lemma uint8_t_range (x : Z) : is_uint8 (uint8_t x).
Proof. unfold is_uint8, uint8_t. apply Z.mod_pos_bound. lia. Qed.

Lemma uint8_t_small (x : Z) : is_uint8 x -> uint8_t x = x.
Proof. unfold is_uint8, uint8_t. intros H. now apply Z.mod_small. Qed.

Lemma testbit_high (x n : Z) : is_uint8 x -> 8 <= n -> Z.testbit x n = false.
Proof.
  intros Hx Hn. rewrite <- (uint8_t_small x Hx), testbit_uint8_t.
  destruct (Z.ltb_spec n 8); [lia | reflexivity].
Qed.

Lemma testbit_not8 (x n : Z) :
  is_uint8 x -> 0 <= n < 8 -> Z.testbit (not8 x) n = negb (Z.testbit x n).
Proof.
  intros Hx Hn. unfold not8.
  replace (255 - x) with (Z.lnot x mod 2 ^ 8).
  - rewrite Z.mod_pow2_bits_low by lia. apply Z.lnot_spec. lia.
  - unfold Z.lnot, is_uint8 in *. change (2 ^ 8) with 256.
    replace (Z.pred (- x)) with (255 - x + (-1) * 256) by lia.
    rewrite Z.mod_add by lia. apply Z.mod_small. lia.
Qed.

(** ** The machine's accessors *)

Lemma get_upd_port (p : port_id) (f : PcIntPort -> PcIntPort) (m : Machine) :
  get p (upd_port p f m) = f (get p m).
Proof. destruct p; reflexivity. Qed.

Lemma get_upd_port_other (p q : port_id) (f : PcIntPort -> PcIntPort) (m : Machine) :
  p <> q -> get q (upd_port p f m) = get q m.
Proof. destruct p, q; intros H; try reflexivity; contradiction. Qed.

Lemma sfr_upd_port (p : port_id) (f : PcIntPort -> PcIntPort) (m : Machine) :
  sfr (upd_port p f m) = sfr m.
Proof. destruct p; reflexivity. Qed.

Lemma SREG_upd_port (p : port_id) (f : PcIntPort -> PcIntPort) (m : Machine) :
  SREG (upd_port p f m) = SREG m.
Proof. destruct p; reflexivity. Qed.

Lemma load_upd_port (reg : Z) (p : port_id) (f : PcIntPort -> PcIntPort) (m : Machine) :
  load reg (upd_port p f m) = load reg m.
Proof. unfold load. now rewrite sfr_upd_port. Qed.

Lemma get_store (p : port_id) (reg v : Z) (m : Machine) :
  get p (store reg v m) = get p m.
Proof. destruct p; reflexivity. Qed.

Lemma get_set_SREG (p : port_id) (v : Z) (m : Machine) :
  get p (set_SREG v m) = get p m.
Proof. destruct p; reflexivity. Qed.

Lemma load_store (reg v : Z) (m : Machine) :
  load reg (store reg v m) = uint8_t v.
Proof. unfold load, store; simpl. now rewrite Z.eqb_refl. Qed.

Lemma load_store_other (reg reg' v : Z) (m : Machine) :
  reg' <> reg -> load reg' (store reg v m) = load reg' m.
Proof.
  intros H. unfold load, store; simpl.
  destruct (Z.eqb_spec reg' reg); [contradiction | reflexivity].
Qed.

Lemma truthy_true (x : Z) : truthy x = true <-> x <> 0.
Proof.
  unfold truthy. rewrite negb_true_iff. apply Z.eqb_neq.
Qed.

Lemma truthy_false (x : Z) : truthy x = false <-> x = 0.
Proof.
  unfold truthy. rewrite negb_false_iff. apply Z.eqb_eq.
Qed.

(** ** The trigger word *)

Lemma trigger_pins_range (port : PcIntPort) (new_state : Z) :
  is_uint8 (trigger_pins port new_state).
Proof. apply uint8_t_range. Qed.

Lemma trigger_pins_test (port : PcIntPort) (new_state : Z) (i : fin 8) :
  truthy (Z.land (trigger_pins port new_state) (_BV (bit_of i))) =
  bit_triggers port new_state i.
Proof.
  pose proof (bit_of_range i) as Hi.
  rewrite truthy_land_BV by lia.
  unfold trigger_pins, bit_triggers.
  rewrite testbit_uint8_t, Z.land_spec, Z.lxor_spec, Z.lor_spec, !Z.land_spec.
  rewrite Z.lnot_spec by lia.
  destruct (Z.ltb_spec (bit_of i) 8); [reflexivity | lia].
Qed.

Lemma trigger_pins_word (port : PcIntPort) (new_value : Z) :
  is_uint8 (rising port) -> is_uint8 (falling port) -> is_uint8 new_value ->
  trigger_pins port new_value =
  spec_trigger (state port) (rising port) (falling port) new_value.
Proof.
  intros Hr Hf Hn. apply Z.bits_inj'. intros n Hn0.
  unfold trigger_pins, spec_trigger, spec_changed, spec_qualifies.
  rewrite testbit_uint8_t, !Z.land_spec, !Z.lxor_spec, !Z.lor_spec, !Z.land_spec.
  rewrite Z.lnot_spec by lia.
  destruct (Z.ltb_spec n 8) as [Hlt | Hge].
  - rewrite testbit_not8 by (auto; lia). reflexivity.
  - rewrite (testbit_high (rising port)), (testbit_high (falling port)) by auto.
    simpl. now rewrite andb_false_r.
Qed.

(** C1. For every port-group table and every value read from the
    port, the test the handler makes for slot [i] on its trigger word
    succeeds exactly when bit [i] differs from the snapshot and the
    new level is the one the slot's mode asks for; and when the masks
    and the value read are 8-bit words, the trigger word is
    [(last_state XOR new_value) AND ((rising AND new_value) OR
    (falling AND NOT new_value))]. *)
Theorem trigger_pins_correct (port : PcIntPort) (new_value : Z) :
  (forall i : fin 8,
     truthy (Z.land (trigger_pins port new_value) (_BV (bit_of i))) =
     xorb (Z.testbit (state port) (bit_of i)) (Z.testbit new_value (bit_of i)) &&
     ((Z.testbit (rising port) (bit_of i) && Z.testbit new_value (bit_of i)) ||
      (Z.testbit (falling port) (bit_of i) && negb (Z.testbit new_value (bit_of i))))) /\
  (is_uint8 (rising port) -> is_uint8 (falling port) -> is_uint8 new_value ->
   trigger_pins port new_value =
   Z.land (Z.lxor (state port) new_value)
          (Z.lor (Z.land (rising port) new_value)
                 (Z.land (falling port) (not8 new_value)))).
Proof.
  split.
  - intros i. apply trigger_pins_test.
  - apply trigger_pins_word.
Qed.

Lemma trigger_pins_correct_witness :
  let port := mkPort (vreplicate 8 0) (vreplicate 8 0) 0 1 2 in
  truthy (Z.land (trigger_pins port 3) (_BV (bit_of 0%fin))) = true /\
  truthy (Z.land (trigger_pins port 3) (_BV (bit_of 1%fin))) = false /\
  trigger_pins port 3 = 1.
Proof.
  intros port.
  destruct (trigger_pins_correct port 3) as [Hbit Hword].
  split; [ | split].
  - rewrite (Hbit 0%fin). reflexivity.
  - rewrite (Hbit 1%fin). reflexivity.
  - rewrite Hword; [reflexivity | unfold is_uint8; simpl; lia ..].
Defined.

(** ** The tables at startup *)

(** The constructor leaves [args] as the storage had it. *)
Lemma PcIntPort_ctor_args (storage : PcIntPort) :
  args (PcIntPort_ctor storage) = args storage.
Proof. reflexivity. Qed.

(** C9. When the program starts, before any registration function has
    run, every one of the four port-group tables has eight null
    callbacks and eight null arguments, snapshot 0 and both mode masks
    0. *)
Theorem startup_tables_empty (sreg : Z) (regs : Z -> Z) (p : port_id) :
  (forall i : fin 8, funcs (get p (startup sreg regs)) !!! i = nullptr) /\
  (forall i : fin 8, args (get p (startup sreg regs)) !!! i = nullptr) /\
  state (get p (startup sreg regs)) = 0 /\
  rising (get p (startup sreg regs)) = 0 /\
  falling (get p (startup sreg regs)) = 0.
Proof.
  assert (Hget : get p (startup sreg regs) = port_at_startup) by (destruct p; reflexivity).
  rewrite Hget. unfold port_at_startup, PcIntPort_ctor, zero_initialized.
  cbn [funcs args state rising falling].
  repeat split; intros i; apply vlookup_replicate.
Qed.

(** ** One run of the handler *)

Section DispatcherFacts.

Variable user_code : callback -> ptr -> bool -> Machine -> Machine.
Variable p : port_id.

Lemma remaining_all : remaining 0 slots.
Proof. unfold slots. repeat (econstructor; [reflexivity | simpl]). constructor. Qed.

Lemma after_calls_keeps (calls : list invocation) (m : Machine) :
keeps_slots user_code p ->
funcs (get p (after_calls user_code calls m)) = funcs (get p m) /\
args (get p (after_calls user_code calls m)) = args (get p m).
Proof.
intros Hk. revert m. induction calls as [ | c calls IH]; intros m; simpl.
- split; reflexivity.
- destruct (IH (user_code (inv_func c) (inv_arg c) (inv_level c) m)) as [-> ->].
  apply Hk.
Qed.

Lemma after_calls_app (l1 l2 : list invocation) (m : Machine) :
after_calls user_code (l1 ++ l2) m =
after_calls user_code l2 (after_calls user_code l1 m).
Proof. unfold after_calls. apply fold_left_app. Qed.

Lemma isr_loop_fold (table : PcIntPort) (new_state nr : Z) (l : list (fin 8)) :
  remaining nr l ->
  forall (fuel : nat) (m : Machine) (log : list invocation),
    (length l < fuel)%nat ->
    isr_loop user_code fuel p (trigger_pins table new_state) new_state nr m log =
    Some (fold_left (spec_deliver_slot user_code p table new_state) l (m, log)).
Proof.
  intros Hrem. induction Hrem as [ | nr i l Hi Hrem IH]; intros fuel m log Hfuel.
  - destruct fuel as [ | fuel]; [simpl in Hfuel; lia | ]. reflexivity.
  - destruct fuel as [ | fuel]; [simpl in Hfuel; lia | ].
    pose proof (index8_Some _ _ Hi) as Hnr. pose proof (bit_of_range i) as Hrange.
    cbn [isr_loop fold_left]. rewrite Hi.
    destruct (Z.ltb_spec nr 8) as [_ | Hge]; [ | lia].
    assert (Hnext : uint8_t (nr + 1) = nr + 1).
    { apply uint8_t_small. unfold is_uint8. lia. }
    rewrite Hnext. unfold isr_body, spec_deliver_slot at 2. cbn [fst snd].
    rewrite Hnr, trigger_pins_test, truthy_BV_land by lia.
    destruct (bit_triggers table new_state i && truthy (funcs (get p m) !!! i));
      rewrite <- Hnr; apply IH; simpl in Hfuel; lia.
Qed.

Lemma deliver_fold_keeps (table : PcIntPort) (new_value : Z) (l : list (fin 8)) :
  keeps_slots user_code p ->
  forall (m : Machine) (log : list invocation),
    funcs (get p m) = funcs table ->
    args (get p m) = args table ->
    fold_left (spec_deliver_slot user_code p table new_value) l (m, log) =
    (after_calls user_code (invocations_over table new_value l) m,
     log ++ invocations_over table new_value l).
Proof.
  intros Hk. induction l as [ | i l IH]; intros m log Hf Ha.
  - simpl. now rewrite app_nil_r.
  - cbn [fold_left]. unfold spec_deliver_slot at 2. cbn [fst snd].
    rewrite Hf, Ha. unfold invocations_over. cbn [List.filter].
    change (bit_triggers table new_value i && truthy (funcs table !!! i))
      with (delivers table new_value i).
    destruct (delivers table new_value i).
    + cbn [inv_func inv_arg inv_level]. rewrite IH.
      * cbn [map after_calls fold_left]. unfold invocation_of at 3 5.
        cbn [inv_func inv_arg inv_level]. now rewrite <- app_assoc.
      * rewrite <- Hf. apply Hk.
      * rewrite <- Ha. apply Hk.
    + now rewrite IH.
Qed.

End DispatcherFacts.

Lemma expected_invocations_In (port : PcIntPort) (new_value : Z) (c : invocation) :
  In c (expected_invocations port new_value) <->
  exists i, delivers port new_value i = true /\ c = invocation_of port new_value i.
Proof.
  unfold expected_invocations, invocations_over. rewrite in_map_iff. split.
  - intros [i [<- Hin]]. apply filter_In in Hin as [_ Hd]. eauto.
  - intros [i [Hd ->]]. exists i. split; [reflexivity | ].
    apply filter_In. split; [ | assumption].
    unfold slots. repeat (inv_fin i; [simpl; tauto | intros i]). inv_fin i.
Qed.

(** The slots of the calls of one run, in the order of the calls, are
    the delivering slots in ascending order, each of them once. *)
Lemma expected_invocations_slots (port : PcIntPort) (new_value : Z) :
  map inv_slot (expected_invocations port new_value) =
  List.filter (delivers port new_value) slots.
Proof.
  unfold expected_invocations, invocations_over. rewrite map_map. simpl. apply map_id.
Qed.

(** C2. One run of the handler on any machine, with [new_value] the
    value it reads from the input register, returns; it first stores
    [new_value] as the whole snapshot, and then gives the slots 0..7
    their turn in ascending order, calling the callback of a slot
    once, with the slot's argument and the level of its bit in
    [new_value], when the bit triggers and the callback is not null,
    and not calling it otherwise. When the callbacks leave the arrays
    of the table alone, the calls are those of the slots that trigger
    and hold a callback in the table the handler found. *)
Theorem IMPLEMENT_ISR_correct
    (user_code : callback -> ptr -> bool -> Machine -> Machine)
    (p : port_id) (pin_register : Z) (m : Machine) :
  let new_value := load pin_register m in
  let calls :=
    map (fun i => mkInvocation i (funcs (get p m) !!! i) (args (get p m) !!! i)
                               (Z.testbit new_value (bit_of i)))
        (List.filter (fun i => bit_triggers (get p m) new_value i &&
                               truthy (funcs (get p m) !!! i)) slots) in
  state (get p (upd_port p (set_state new_value) m)) = new_value /\
  IMPLEMENT_ISR user_code p pin_register m = Some (spec_dispatch user_code p new_value m) /\
  (keeps_slots user_code p ->
   IMPLEMENT_ISR user_code p pin_register m =
   Some (after_calls user_code calls (upd_port p (set_state new_value) m), calls)).
Proof.
  intros new_value calls.
  assert (Hrun : IMPLEMENT_ISR user_code p pin_register m =
                 Some (spec_dispatch user_code p new_value m)).
  { unfold IMPLEMENT_ISR, spec_dispatch. fold (load pin_register m). fold new_value.
    apply (isr_loop_fold user_code p (get p m) new_value 0 slots remaining_all).
    simpl. lia. }
  split; [now rewrite get_upd_port | ].
  split; [exact Hrun | ].
  intros Hk. rewrite Hrun. unfold spec_dispatch.
  rewrite (deliver_fold_keeps user_code p (get p m) new_value slots Hk).
  - reflexivity.
  - now rewrite get_upd_port.
  - now rewrite get_upd_port.
Qed.

Lemma led_keeps_slots (p : port_id) : keeps_slots Uno.led p.
Proof.
  intros f a level m. unfold Uno.led. rewrite get_store. split; reflexivity.
Defined.

Lemma IMPLEMENT_ISR_correct_witness :
  IMPLEMENT_ISR Uno.led Port0 Uno.PINB Uno.armed =
  Some (store 37 32 (store 37 32 (upd_port Port0 (set_state 3) Uno.armed)),
        [mkInvocation 0%fin 1000 2000 true; mkInvocation 1%fin 1001 2001 true]).
Proof.
  exact (proj2 (proj2 (IMPLEMENT_ISR_correct Uno.led Port0 Uno.PINB Uno.armed))
           (led_keeps_slots Port0)).
Defined.

(** ** Setting and clearing one bit of an 8-bit word *)

Lemma testbit_set_bit (x b n : Z) :
  0 <= b ->
  Z.testbit (uint8_t (Z.lor x (_BV b))) n = (n <? 8) && (Z.testbit x n || (n =? b)).
Proof.
  intros Hb. now rewrite testbit_uint8_t, Z.lor_spec, testbit_BV.
Qed.

Lemma testbit_clear_bit (x b n : Z) :
  0 <= b ->
  Z.testbit (uint8_t (Z.land x (Z.lnot (_BV b)))) n =
  (n <? 8) && (Z.testbit x n && negb (n =? b)).
Proof.
  intros Hb. rewrite testbit_uint8_t, Z.land_spec.
  destruct (Z.neg_nonneg_cases n) as [Hneg | Hpos].
  - rewrite (Z.testbit_neg_r x) by lia. reflexivity.
  - now rewrite Z.lnot_spec, testbit_BV.
Qed.

Lemma BV_slot_uint8 (i : fin 8) : uint8_t (_BV (bit_of i)) = _BV (bit_of i).
Proof.
  pose proof (bit_of_range i) as Hi. apply uint8_t_small.
  rewrite BV_pow2 by lia. unfold is_uint8. split.
  - apply Z.pow_nonneg. lia.
  - apply Z.lt_le_trans with (2 ^ 8); [ | reflexivity].
    apply Z.pow_lt_mono_r; lia.
Qed.

Lemma bit_of_inj (i j : fin 8) : bit_of i = bit_of j -> i = j.
Proof.
  unfold bit_of. intros H. apply (inj fin_to_nat). lia.
Qed.

Lemma bit_of_eqb (i j : fin 8) : i <> j -> (bit_of j =? bit_of i) = false.
Proof.
  intros Hne. apply Z.eqb_neq. intros H. apply Hne. symmetry. now apply bit_of_inj.
Qed.

(** ** The registration functions on a resolved pin *)

Create Rewrite HintDb machine.

#[local] Hint Rewrite get_upd_port get_store get_set_SREG sfr_upd_port SREG_upd_port
  load_upd_port load_store : machine.

Section RegistrationFacts.

Context {board : Board}.

Lemma get_port_input (g : Z) (p : port_id) :
  get_port g = Some p ->
  exists reg, PCINT_INPUT_PORT p = Some reg /\
              forall m, get_port_value g m = load reg m.
Proof.
  unfold get_port, get_port_value.
  destruct g as [ | [ [ | | ] | [ | | ] | ] | ]; intros H; try discriminate H;
    match type of H with
    | context [PCINT_INPUT_PORT ?q] =>
        destruct (PCINT_INPUT_PORT q) as [reg | ] eqn:E; [ | discriminate H];
        injection H as <-; eauto
    end.
Qed.

Lemma get_port_value_resolved (g : Z) (p : port_id) (reg : Z) (m : Machine) :
  get_port g = Some p -> PCINT_INPUT_PORT p = Some reg ->
  get_port_value g m = load reg m.
Proof.
  intros Hg Hreg. destruct (get_port_input g p Hg) as [reg' [Hreg' Hv]].
  rewrite Hv. congruence.
Qed.

Section Resolved.

Variables (pin : Z) (p : port_id) (i : fin 8).
Hypothesis Hres : resolves pin p i.

Lemma resolved_bit : uint8_t (digitalPinToPCMSKbit pin) = bit_of i.
Proof. apply index8_Some, Hres. Qed.

Lemma resolved_mask :
  uint8_t (_BV (uint8_t (digitalPinToPCMSKbit pin))) = _BV (bit_of i).
Proof. rewrite resolved_bit. apply BV_slot_uint8. Qed.

Lemma resolved_group : 0 <= digitalPinToPCICRbit pin < 8.
Proof.
  destruct Hres as [_ _ Hg Hp _].
  rewrite (uint8_t_small _ Hg) in Hp. unfold get_port in Hp.
  destruct (digitalPinToPCICRbit pin) as [ | [ [ | | ] | [ | | ] | ] | ];
    try discriminate; lia.
Qed.

Lemma attachInterrupt_runs (func : callback) (arg : ptr) (mode : Z) (m : Machine) :
  func <> 0 ->
  attachInterrupt pin func arg mode m =
  run (attach_code p i pin (digitalPinToPCICR pin) (digitalPinToPCMSK pin)
         (uint8_t (digitalPinToPCICRbit pin)) (_BV (bit_of i)) func arg mode
         (set_SREG (uint8_t (SREG m)) ;> Ret))
      (noInterrupts m).
Proof.
  intros Hf. unfold attachInterrupt, attachInterrupt_thread.
  destruct Hres as [Hc Hm Hg Hp Hb].
  rewrite Hp, Hb, resolved_mask.
  apply truthy_true in Hc, Hm, Hf. rewrite Hc, Hm, Hf.
  reflexivity.
Qed.

Lemma detachInterrupt_runs (m : Machine) :
  detachInterrupt pin m =
  run (detach_code p i pin (digitalPinToPCICR pin) (digitalPinToPCMSK pin) (_BV (bit_of i))
         (set_SREG (uint8_t (SREG m)) ;> Ret))
      (noInterrupts m).
Proof.
  unfold detachInterrupt, detachInterrupt_thread.
  destruct Hres as [Hc Hm Hg Hp Hb].
  rewrite Hp, Hb, resolved_mask.
  apply truthy_true in Hc, Hm. rewrite Hc, Hm.
  reflexivity.
Qed.

Lemma enableInterrupt_runs (m : Machine) :
  funcs (get p m) !!! i <> 0 ->
  enableInterrupt pin m =
  run (enable_code p pin (digitalPinToPCICR pin) (digitalPinToPCMSK pin)
         (uint8_t (digitalPinToPCICRbit pin)) (_BV (bit_of i))
         (set_SREG (uint8_t (SREG m)) ;> Ret))
      (noInterrupts m).
Proof.
  intros Hf. unfold enableInterrupt, enableInterrupt_thread.
  destruct Hres as [Hc Hm Hg Hp Hb].
  rewrite Hp, Hb, resolved_mask.
  apply truthy_true in Hc, Hm, Hf. rewrite Hc, Hm.
  cbn [andb run]. rewrite Hf. reflexivity.
Qed.

Lemma disableInterrupt_runs (m : Machine) :
  disableInterrupt pin m =
  run (mask_off pin (digitalPinToPCICR pin) (digitalPinToPCMSK pin) (_BV (bit_of i))
         (set_SREG (uint8_t (SREG m)) ;> Ret))
      (noInterrupts m).
Proof.
  unfold disableInterrupt, disableInterrupt_thread.
  destruct Hres as [Hc Hm Hg Hp Hb].
  rewrite Hp, resolved_mask.
  apply truthy_true in Hc, Hm. rewrite Hc, Hm.
  reflexivity.
Qed.

End Resolved.

End RegistrationFacts.

(** ** Register writes *)

Lemma load_set_SREG (reg v : Z) (m : Machine) : load reg (set_SREG v m) = load reg m.
Proof. reflexivity. Qed.

Lemma load_noInterrupts (reg : Z) (m : Machine) : load reg (noInterrupts m) = load reg m.
Proof. reflexivity. Qed.

Lemma get_noInterrupts (p : port_id) (m : Machine) : get p (noInterrupts m) = get p m.
Proof. apply get_set_SREG. Qed.

Lemma get_or_into (p : port_id) (reg v : Z) (m : Machine) :
  get p (or_into reg v m) = get p m.
Proof. apply get_store. Qed.

Lemma get_and_into (p : port_id) (reg v : Z) (m : Machine) :
  get p (and_into reg v m) = get p m.
Proof. apply get_store. Qed.

Lemma testbit_load_lt (reg : Z) (m : Machine) (n : Z) :
  Z.testbit (load reg m) n = true -> n < 8.
Proof.
  unfold load. rewrite testbit_uint8_t. intros H.
  apply andb_true_iff in H as [H _]. now apply Z.ltb_lt.
Qed.

Lemma uint8_t_idem (x : Z) : uint8_t (uint8_t x) = uint8_t x.
Proof. apply uint8_t_small, uint8_t_range. Qed.

Lemma load_or_into_same (reg v : Z) (m : Machine) :
  load reg (or_into reg v m) = uint8_t (Z.lor (load reg m) v).
Proof. unfold or_into. rewrite load_store. apply uint8_t_idem. Qed.

Lemma load_or_into_other (reg reg' v : Z) (m : Machine) :
  reg' <> reg -> load reg' (or_into reg v m) = load reg' m.
Proof. intros H. unfold or_into. now apply load_store_other. Qed.

Lemma load_and_into_same (reg v : Z) (m : Machine) :
  load reg (and_into reg v m) = uint8_t (Z.land (load reg m) v).
Proof. unfold and_into. rewrite load_store. apply uint8_t_idem. Qed.

Lemma load_and_into_other (reg reg' v : Z) (m : Machine) :
  reg' <> reg -> load reg' (and_into reg v m) = load reg' m.
Proof. intros H. unfold and_into. now apply load_store_other. Qed.

(** An OR into any register never clears a bit of a register. *)
Lemma load_or_into_keeps (reg reg' v : Z) (m : Machine) (n : Z) :
  Z.testbit (load reg' m) n = true ->
  Z.testbit (load reg' (or_into reg v m)) n = true.
Proof.
  intros H. destruct (Z.eq_dec reg' reg) as [-> | Hne].
  - rewrite load_or_into_same, testbit_uint8_t, Z.lor_spec, H.
    apply testbit_load_lt in H. apply Z.ltb_lt in H. now rewrite H.
  - now rewrite load_or_into_other.
Qed.

Lemma load_or_into_sets (reg : Z) (b : Z) (m : Machine) :
  0 <= b < 8 -> Z.testbit (load reg (or_into reg (_BV b) m)) b = true.
Proof.
  intros Hb. rewrite load_or_into_same, testbit_set_bit by lia.
  rewrite Z.eqb_refl, orb_true_r.
  destruct (Z.ltb_spec b 8); [reflexivity | lia].
Qed.

#[local] Hint Rewrite load_set_SREG load_noInterrupts get_noInterrupts get_or_into
  get_and_into : machine.

(** ** attachInterrupt *)

(** The machine [attachInterrupt] leaves, field by field. *)
Lemma attachInterrupt_result `{board : Board} (pin : Z) (p : port_id) (i : fin 8)
    (func : callback) (arg : ptr) (mode : Z) (m : Machine) :
  resolves pin p i -> func <> 0 ->
  exists m',
    attachInterrupt pin func arg mode m = Some m' /\
    funcs (get p m') = vinsert i func (funcs (get p m)) /\
    args (get p m') = vinsert i arg (args (get p m)) /\
    rising (get p m') =
      uint8_t (if (mode =? RISING) || (mode =? CHANGE)
               then Z.lor (rising (get p m)) (_BV (bit_of i))
               else Z.land (rising (get p m)) (Z.lnot (_BV (bit_of i)))) /\
    falling (get p m') =
      uint8_t (if (mode =? FALLING) || (mode =? CHANGE)
               then Z.lor (falling (get p m)) (_BV (bit_of i))
               else Z.land (falling (get p m)) (Z.lnot (_BV (bit_of i)))) /\
    state (get p m') =
      uint8_t (Z.lor (Z.land (state (get p m)) (Z.lnot (_BV (bit_of i))))
                     (Z.land (get_port_value (uint8_t (digitalPinToPCICRbit pin)) m')
                             (_BV (bit_of i)))) /\
    sfr m' = sfr (or_into (digitalPinToPCICR pin) (_BV (digitalPinToPCICRbit pin))
                    (or_into (digitalPinToPCMSK pin) (_BV (bit_of i)) m)) /\
    SREG m' = uint8_t (SREG m).
Proof.
  intros Hres Hf. rewrite (attachInterrupt_runs pin p i Hres) by assumption.
  cbn [run attach_code]. eexists. split; [reflexivity | ].
  unfold refresh_state. autorewrite with machine. port_fields.
  repeat split.
  all: destruct p; reflexivity.
Qed.

Lemma load_eq_of_sfr (reg : Z) (m1 m2 : Machine) :
  sfr m1 = sfr m2 -> load reg m1 = load reg m2.
Proof. unfold load. now intros ->. Qed.

Lemma testbit_mode_bit (x b : Z) (c : bool) :
  0 <= b < 8 ->
  Z.testbit (uint8_t (if c then Z.lor x (_BV b) else Z.land x (Z.lnot (_BV b)))) b = c.
Proof.
  intros Hb. assert (Hlt : (b <? 8) = true) by (apply Z.ltb_lt; lia).
  destruct c.
  - rewrite testbit_set_bit, Hlt, Z.eqb_refl by lia. apply orb_true_r.
  - rewrite testbit_clear_bit, Hlt, Z.eqb_refl by lia. apply andb_false_r.
Qed.

Lemma unmasked_bits (pcicr pcmsk b g : Z) (m m' : Machine) :
  0 <= b < 8 -> 0 <= g < 8 ->
  sfr m' = sfr (or_into pcicr (_BV g) (or_into pcmsk (_BV b) m)) ->
  Z.testbit (load pcmsk m') b = true /\ Z.testbit (load pcicr m') g = true.
Proof.
  intros Hb Hg Hsfr. rewrite !(load_eq_of_sfr _ _ _ Hsfr). split.
  - now apply load_or_into_keeps, load_or_into_sets.
  - now apply load_or_into_sets.
Qed.

(** C3. On a pin that resolves to a table and a slot, with a callback
    that is not null, [attachInterrupt] returns with the callback and
    the argument stored in the slot, the slot's bit of [rising] set
    exactly when the mode is RISING or CHANGE, its bit of [falling]
    set exactly when the mode is FALLING or CHANGE, its bit of the
    mask register set, and the group's bit of the control register
    set. *)
Theorem attachInterrupt_registers `{board : Board} (pin : Z) (p : port_id) (i : fin 8)
    (func : callback) (arg : ptr) (mode : Z) (m : Machine) :
  resolves pin p i -> func <> nullptr ->
  exists m',
    attachInterrupt pin func arg mode m = Some m' /\
    funcs (get p m') !!! i = func /\
    args (get p m') !!! i = arg /\
    Z.testbit (rising (get p m')) (bit_of i) = ((mode =? RISING) || (mode =? CHANGE)) /\
    Z.testbit (falling (get p m')) (bit_of i) = ((mode =? FALLING) || (mode =? CHANGE)) /\
    Z.testbit (load (digitalPinToPCMSK pin) m') (bit_of i) = true /\
    Z.testbit (load (digitalPinToPCICR pin) m') (digitalPinToPCICRbit pin) = true.
Proof.
  intros Hres Hf.
  destruct (attachInterrupt_result pin p i func arg mode m Hres Hf)
    as (m' & Hrun & Hfuncs & Hargs & Hrise & Hfall & _ & Hsfr & _).
  pose proof (bit_of_range i) as Hi.
  exists m'. split; [assumption | ].
  split; [rewrite Hfuncs; apply vlookup_insert | ].
  split; [rewrite Hargs; apply vlookup_insert | ].
  split; [rewrite Hrise; now apply testbit_mode_bit | ].
  split; [rewrite Hfall; now apply testbit_mode_bit | ].
  apply unmasked_bits with (m := m); auto.
  apply (resolved_group pin p i Hres).
Qed.

Lemma uno_pin9 : resolves (board := Uno.board) 9 Port0 1%fin.
Proof.
  constructor; try reflexivity; try discriminate.
  unfold is_uint8; simpl; lia.
Defined.

Lemma attachInterrupt_registers_witness :
  exists m',
    attachInterrupt (board := Uno.board) 9 1001 2001 3 Uno.reset = Some m' /\
    funcs (get Port0 m') !!! 1%fin = 1001 /\
    args (get Port0 m') !!! 1%fin = 2001 /\
    Z.testbit (rising (get Port0 m')) 1 = true /\
    Z.testbit (falling (get Port0 m')) 1 = false /\
    Z.testbit (load Uno.PCMSK0 m') 1 = true /\
    Z.testbit (load Uno.PCICR m') 0 = true.
Proof.
  apply (attachInterrupt_registers 9 Port0 1%fin 1001 2001 3 Uno.reset uno_pin9).
  discriminate.
Defined.

(** ** enableInterrupt, detachInterrupt, disableInterrupt *)

Lemma enableInterrupt_result `{board : Board} (pin : Z) (p : port_id) (i : fin 8)
    (m : Machine) :
  resolves pin p i -> funcs (get p m) !!! i <> 0 ->
  exists m',
    enableInterrupt pin m = Some m' /\
    funcs (get p m') = funcs (get p m) /\
    args (get p m') = args (get p m) /\
    rising (get p m') = rising (get p m) /\
    falling (get p m') = falling (get p m) /\
    state (get p m') =
      uint8_t (Z.lor (Z.land (state (get p m)) (Z.lnot (_BV (bit_of i))))
                     (Z.land (get_port_value (uint8_t (digitalPinToPCICRbit pin)) m')
                             (_BV (bit_of i)))) /\
    sfr m' = sfr (or_into (digitalPinToPCICR pin) (_BV (digitalPinToPCICRbit pin))
                    (or_into (digitalPinToPCMSK pin) (_BV (bit_of i)) m)) /\
    SREG m' = uint8_t (SREG m).
Proof.
  intros Hres Hf. rewrite (enableInterrupt_runs pin p i Hres) by assumption.
  cbn [run enable_code]. eexists. split; [reflexivity | ].
  unfold refresh_state. autorewrite with machine. port_fields.
  repeat split.
  all: destruct p; reflexivity.
Qed.

Lemma run_mask_off `{board : Board} (pin pcicr pcmsk bitmask : Z) (rest : thread)
    (m : Machine) :
  run (mask_off pin pcicr pcmsk bitmask rest) m =
  run rest (masked_off pcicr pcmsk bitmask (_BV (digitalPinToPCICRbit pin)) m).
Proof.
  unfold mask_off, masked_off. cbn [run]. unfold truthy. rewrite negb_involutive.
  destruct (load pcmsk (and_into pcmsk (Z.lnot bitmask) m) =? 0); reflexivity.
Qed.

Lemma get_masked_off (p : port_id) (pcicr pcmsk bitmask groupmask : Z) (m : Machine) :
  get p (masked_off pcicr pcmsk bitmask groupmask m) = get p m.
Proof.
  unfold masked_off.
  destruct (load pcmsk (and_into pcmsk (Z.lnot bitmask) m) =? 0);
    now rewrite ?get_and_into.
Qed.

Lemma sfr_masked_off (pcicr pcmsk bitmask groupmask : Z) (m1 m2 : Machine) :
  sfr m1 = sfr m2 ->
  sfr (masked_off pcicr pcmsk bitmask groupmask m1) =
  sfr (masked_off pcicr pcmsk bitmask groupmask m2).
Proof.
  intros H. unfold masked_off, and_into, load, store; cbn. rewrite H.
  destruct (_ =? 0); cbn; rewrite ?H; reflexivity.
Qed.

Lemma detachInterrupt_result `{board : Board} (pin : Z) (p : port_id) (i : fin 8)
    (m : Machine) :
  resolves pin p i ->
  exists m',
    detachInterrupt pin m = Some m' /\
    funcs (get p m') = vinsert i nullptr (funcs (get p m)) /\
    args (get p m') = vinsert i nullptr (args (get p m)) /\
    rising (get p m') = uint8_t (Z.land (rising (get p m)) (Z.lnot (_BV (bit_of i)))) /\
    falling (get p m') = uint8_t (Z.land (falling (get p m)) (Z.lnot (_BV (bit_of i)))) /\
    state (get p m') = state (get p m) /\
    sfr m' = sfr (masked_off (digitalPinToPCICR pin) (digitalPinToPCMSK pin)
                    (_BV (bit_of i)) (_BV (digitalPinToPCICRbit pin)) m) /\
    SREG m' = uint8_t (SREG m).
Proof.
  intros Hres. rewrite (detachInterrupt_runs pin p i Hres).
  unfold detach_code. cbn [run]. rewrite run_mask_off. cbn [run].
  eexists. split; [reflexivity | ].
  autorewrite with machine. rewrite get_masked_off.
  autorewrite with machine. port_fields.
  repeat split.
  change (sfr (set_SREG ?v ?x)) with (sfr x).
  apply sfr_masked_off. now autorewrite with machine.
Qed.

Lemma disableInterrupt_result `{board : Board} (pin : Z) (p : port_id) (i : fin 8)
    (m : Machine) :
  resolves pin p i ->
  exists m',
    disableInterrupt pin m = Some m' /\
    (forall q, get q m' = get q m) /\
    sfr m' = sfr (masked_off (digitalPinToPCICR pin) (digitalPinToPCMSK pin)
                    (_BV (bit_of i)) (_BV (digitalPinToPCICRbit pin)) m) /\
    SREG m' = uint8_t (SREG m).
Proof.
  intros Hres. rewrite (disableInterrupt_runs pin p i Hres).
  rewrite run_mask_off. cbn [run].
  eexists. split; [reflexivity | ].
  split; [ | split; [ | reflexivity]].
  - intros q. now rewrite get_set_SREG, get_masked_off, get_noInterrupts.
  - change (sfr (set_SREG ?v ?x)) with (sfr x). now apply sfr_masked_off.
Qed.

(** ** The snapshot after attach and enable *)

Lemma testbit_refresh (s v b n : Z) :
  0 <= b -> 0 <= n < 8 ->
  Z.testbit (uint8_t (Z.lor (Z.land s (Z.lnot (_BV b))) (Z.land v (_BV b)))) n =
  if n =? b then Z.testbit v n else Z.testbit s n.
Proof.
  intros Hb Hn.
  rewrite testbit_uint8_t, Z.lor_spec, !Z.land_spec, Z.lnot_spec, testbit_BV by lia.
  destruct (Z.ltb_spec n 8); [ | lia].
  destruct (n =? b); simpl.
  - now rewrite andb_false_r, andb_true_r.
  - now rewrite andb_true_r, andb_false_r, orb_false_r.
Qed.

Lemma refreshed_state `{board : Board} (pin : Z) (p : port_id) (i : fin 8) (reg : Z)
    (m m' : Machine) :
  resolves pin p i ->
  PCINT_INPUT_PORT p = Some reg ->
  state (get p m') =
    uint8_t (Z.lor (Z.land (state (get p m)) (Z.lnot (_BV (bit_of i))))
                   (Z.land (get_port_value (uint8_t (digitalPinToPCICRbit pin)) m')
                           (_BV (bit_of i)))) ->
  refreshes_only p i reg m m'.
Proof.
  intros Hres Hreg Hstate.
  rewrite (get_port_value_resolved _ p reg m' (res_port _ _ _ Hres) Hreg) in Hstate.
  pose proof (bit_of_range i) as Hi.
  split.
  - rewrite Hstate, testbit_refresh, Z.eqb_refl by lia. reflexivity.
  - intros j Hj. pose proof (bit_of_range j) as Hjr.
    rewrite Hstate, testbit_refresh, (bit_of_eqb i j) by (auto; lia). reflexivity.
Qed.

Lemma input_register_kept (pcicr pcmsk reg v w : Z) (m m' : Machine) :
  sfr m' = sfr (or_into pcicr v (or_into pcmsk w m)) ->
  reg <> pcmsk -> reg <> pcicr -> load reg m' = load reg m.
Proof.
  intros Hsfr H1 H2. unfold load at 1. rewrite Hsfr.
  fold (load reg (or_into pcicr v (or_into pcmsk w m))).
  now rewrite !load_or_into_other.
Qed.

(** C5. On a pin that resolves to slot [i] of the table of a group
    whose input register is [reg], [attachInterrupt] with a callback
    that is not null, and [enableInterrupt] when the slot's callback
    is not null, leave a snapshot whose bit [i] is bit [i] of the
    input register as read in the call and whose seven other bits are
    those it had; the input register holds what it held before the
    call when it is neither the mask nor the control register. *)
Theorem snapshot_refreshed_one_bit `{board : Board} (pin : Z) (p : port_id) (i : fin 8)
    (reg : Z) (m : Machine) :
  resolves pin p i ->
  PCINT_INPUT_PORT p = Some reg ->
  (forall func arg mode,
     func <> nullptr ->
     exists m',
       attachInterrupt pin func arg mode m = Some m' /\
       refreshes_only p i reg m m' /\
       (reg <> digitalPinToPCMSK pin -> reg <> digitalPinToPCICR pin ->
        load reg m' = load reg m)) /\
  (funcs (get p m) !!! i <> nullptr ->
   exists m',
     enableInterrupt pin m = Some m' /\
     refreshes_only p i reg m m' /\
     (reg <> digitalPinToPCMSK pin -> reg <> digitalPinToPCICR pin ->
      load reg m' = load reg m)).
Proof.
  intros Hres Hreg. split.
  - intros func arg mode Hf.
    destruct (attachInterrupt_result pin p i func arg mode m Hres Hf)
      as (m' & Hrun & _ & _ & _ & _ & Hstate & Hsfr & _).
    exists m'. split; [assumption | ]. split.
    + now apply (refreshed_state pin).
    + now apply input_register_kept with (1 := Hsfr).
  - intros Hf.
    destruct (enableInterrupt_result pin p i m Hres Hf)
      as (m' & Hrun & _ & _ & _ & _ & Hstate & Hsfr & _).
    exists m'. split; [assumption | ]. split.
    + now apply (refreshed_state pin).
    + now apply input_register_kept with (1 := Hsfr).
Qed.

Lemma snapshot_refreshed_one_bit_witness :
  (exists m',
     attachInterrupt (board := Uno.board) 9 1001 2001 3 Uno.armed = Some m' /\
     refreshes_only Port0 1%fin Uno.PINB Uno.armed m' /\
     (Uno.PINB <> Uno.PCMSK0 -> Uno.PINB <> Uno.PCICR ->
      load Uno.PINB m' = load Uno.PINB Uno.armed)) /\
  (exists m',
     enableInterrupt (board := Uno.board) 9 Uno.armed = Some m' /\
     refreshes_only Port0 1%fin Uno.PINB Uno.armed m' /\
     (Uno.PINB <> Uno.PCMSK0 -> Uno.PINB <> Uno.PCICR ->
      load Uno.PINB m' = load Uno.PINB Uno.armed)).
Proof.
  destruct (snapshot_refreshed_one_bit (board := Uno.board) 9 Port0 1%fin Uno.PINB
              Uno.armed uno_pin9 eq_refl) as [Hattach Henable].
  split.
  - apply Hattach. discriminate.
  - apply Henable. discriminate.
Defined.

(** ** Calls that are discarded *)

Lemma unmapped_guard `{board : Board} (pin : Z) :
  unmapped pin ->
  get_port (uint8_t (digitalPinToPCICRbit pin)) = None \/
  truthy (digitalPinToPCICR pin) && truthy (digitalPinToPCMSK pin) = false.
Proof.
  intros [H | [H | H]].
  - right. apply truthy_false in H. now rewrite H.
  - right. apply truthy_false in H. rewrite H. apply andb_false_r.
  - now left.
Qed.

(** C6. [attachInterrupt], [detachInterrupt], [enableInterrupt] and
    [disableInterrupt] on a pin that does not resolve to a group with
    a table, [attachInterrupt] on any pin with a null callback, and
    [enableInterrupt] on a resolved pin whose slot holds a null
    callback, all return, and return the machine they were given:
    every table, every register and [SREG] are as before. *)
Theorem discarded_calls_change_nothing `{board : Board} (pin : Z) (m : Machine) :
  (unmapped pin ->
   (forall func arg mode, attachInterrupt pin func arg mode m = Some m) /\
   detachInterrupt pin m = Some m /\
   enableInterrupt pin m = Some m /\
   disableInterrupt pin m = Some m) /\
  (forall arg mode, attachInterrupt pin nullptr arg mode m = Some m) /\
  (forall p i,
     resolves pin p i -> funcs (get p m) !!! i = nullptr ->
     enableInterrupt pin m = Some m).
Proof.
  split; [ | split].
  - intros Hun.
    unfold attachInterrupt, detachInterrupt, enableInterrupt, disableInterrupt,
      attachInterrupt_thread, detachInterrupt_thread, enableInterrupt_thread,
      disableInterrupt_thread.
    destruct (unmapped_guard pin Hun) as [-> | Hg].
    + repeat split.
    + destruct (get_port _); [ | repeat split].
      rewrite Hg. repeat split.
  - intros arg mode. unfold attachInterrupt, attachInterrupt_thread.
    destruct (get_port _); [ | reflexivity].
    change (truthy nullptr) with false. now rewrite andb_false_r.
  - intros p i [Hc Hm Hg Hp Hb] Hnull.
    unfold enableInterrupt, enableInterrupt_thread.
    rewrite Hp, Hb. apply truthy_true in Hc, Hm. rewrite Hc, Hm.
    cbn [andb run]. rewrite Hnull. reflexivity.
Qed.

Lemma uno_pin30_unmapped : unmapped (board := Uno.board) 30.
Proof. left. reflexivity. Defined.

Lemma uno_pin10 : resolves (board := Uno.board) 10 Port0 2%fin.
Proof.
  constructor; try reflexivity; try discriminate.
  unfold is_uint8; simpl; lia.
Defined.

Lemma discarded_calls_change_nothing_witness :
  attachInterrupt (board := Uno.board) 30 1000 2000 1 Uno.armed = Some Uno.armed /\
  detachInterrupt (board := Uno.board) 30 Uno.armed = Some Uno.armed /\
  attachInterrupt (board := Uno.board) 9 nullptr 2000 1 Uno.armed = Some Uno.armed /\
  enableInterrupt (board := Uno.board) 10 Uno.armed = Some Uno.armed.
Proof.
  destruct (discarded_calls_change_nothing (board := Uno.board) 30 Uno.armed)
    as [Hunmapped _].
  destruct (Hunmapped uno_pin30_unmapped) as (Hattach & Hdetach & _ & _).
  destruct (discarded_calls_change_nothing (board := Uno.board) 9 Uno.armed)
    as (_ & Hnull & _).
  destruct (discarded_calls_change_nothing (board := Uno.board) 10 Uno.armed)
    as (_ & _ & Hempty).
  split; [apply Hattach | ].
  split; [apply Hdetach | ].
  split; [apply Hnull | ].
  apply (Hempty Port0 2%fin uno_pin10). reflexivity.
Defined.

(** ** detachInterrupt *)

Lemma load_masked_off_mask (pcicr pcmsk bitmask groupmask : Z) (m : Machine) :
  pcicr <> pcmsk ->
  load pcmsk (masked_off pcicr pcmsk bitmask groupmask m) =
  uint8_t (Z.land (load pcmsk m) (Z.lnot bitmask)).
Proof.
  intros Hne. unfold masked_off.
  destruct (load pcmsk (and_into pcmsk (Z.lnot bitmask) m) =? 0).
  - rewrite load_and_into_other by auto. apply load_and_into_same.
  - apply load_and_into_same.
Qed.

Lemma load_masked_off_control (pcicr pcmsk bitmask groupmask : Z) (m : Machine) :
  pcicr <> pcmsk ->
  load pcicr (masked_off pcicr pcmsk bitmask groupmask m) =
  if load pcmsk (masked_off pcicr pcmsk bitmask groupmask m) =? 0
  then uint8_t (Z.land (load pcicr m) (Z.lnot groupmask))
  else load pcicr m.
Proof.
  intros Hne. rewrite load_masked_off_mask by assumption. unfold masked_off.
  rewrite load_and_into_same.
  destruct (uint8_t (Z.land (load pcmsk m) (Z.lnot bitmask)) =? 0).
  - rewrite load_and_into_same. now rewrite load_and_into_other.
  - now rewrite load_and_into_other.
Qed.

(** C7. On a pin that resolves to a table and a slot, whose mask and
    control registers are two registers, [detachInterrupt] returns
    with the slot's callback and argument null and the slot's bits of
    [rising], [falling] and the mask register clear; the mask register
    is what it was without that bit; and the group's bit of the
    control register is cleared by the call when the mask register has
    become zero, while the control register is left as it was when the
    mask register has not. *)
Theorem detachInterrupt_clears `{board : Board} (pin : Z) (p : port_id) (i : fin 8)
    (m : Machine) :
  resolves pin p i ->
  digitalPinToPCICR pin <> digitalPinToPCMSK pin ->
  exists m',
    detachInterrupt pin m = Some m' /\
    funcs (get p m') !!! i = nullptr /\
    args (get p m') !!! i = nullptr /\
    Z.testbit (rising (get p m')) (bit_of i) = false /\
    Z.testbit (falling (get p m')) (bit_of i) = false /\
    Z.testbit (load (digitalPinToPCMSK pin) m') (bit_of i) = false /\
    load (digitalPinToPCMSK pin) m' =
      uint8_t (Z.land (load (digitalPinToPCMSK pin) m) (Z.lnot (_BV (bit_of i)))) /\
    (load (digitalPinToPCMSK pin) m' = 0 ->
     load (digitalPinToPCICR pin) m' =
       uint8_t (Z.land (load (digitalPinToPCICR pin) m)
                       (Z.lnot (_BV (digitalPinToPCICRbit pin)))) /\
     Z.testbit (load (digitalPinToPCICR pin) m') (digitalPinToPCICRbit pin) = false) /\
    (load (digitalPinToPCMSK pin) m' <> 0 ->
     load (digitalPinToPCICR pin) m' = load (digitalPinToPCICR pin) m).
Proof.
  intros Hres Hne.
  destruct (detachInterrupt_result pin p i m Hres)
    as (m' & Hrun & Hfuncs & Hargs & Hrise & Hfall & _ & Hsfr & _).
  pose proof (bit_of_range i) as Hi.
  pose proof (resolved_group pin p i Hres) as Hg.
  assert (Hlt : (bit_of i <? 8) = true) by (apply Z.ltb_lt; lia).
  assert (Hmask : load (digitalPinToPCMSK pin) m' =
                  uint8_t (Z.land (load (digitalPinToPCMSK pin) m)
                                  (Z.lnot (_BV (bit_of i))))).
  { rewrite (load_eq_of_sfr _ _ _ Hsfr). now apply load_masked_off_mask. }
  assert (Hctl : load (digitalPinToPCICR pin) m' =
                 if load (digitalPinToPCMSK pin) m' =? 0
                 then uint8_t (Z.land (load (digitalPinToPCICR pin) m)
                                      (Z.lnot (_BV (digitalPinToPCICRbit pin))))
                 else load (digitalPinToPCICR pin) m).
  { rewrite !(load_eq_of_sfr _ _ _ Hsfr). now apply load_masked_off_control. }
  exists m'. split; [assumption | ].
  split; [rewrite Hfuncs; apply vlookup_insert | ].
  split; [rewrite Hargs; apply vlookup_insert | ].
  split.
  { rewrite Hrise, testbit_clear_bit, Hlt, Z.eqb_refl by lia. apply andb_false_r. }
  split.
  { rewrite Hfall, testbit_clear_bit, Hlt, Z.eqb_refl by lia. apply andb_false_r. }
  split.
  { rewrite Hmask, testbit_clear_bit, Hlt, Z.eqb_refl by lia. apply andb_false_r. }
  split; [assumption | ].
  split.
  - intros Hzero. rewrite Hctl, Hzero. cbn [Z.eqb]. split; [reflexivity | ].
    rewrite testbit_clear_bit, Z.eqb_refl by lia. cbn [negb].
    now rewrite !andb_false_r.
  - intros Hnz. rewrite Hctl. apply Z.eqb_neq in Hnz. now rewrite Hnz.
Qed.

Lemma detachInterrupt_clears_witness :
  exists m',
    detachInterrupt (board := Uno.board) 9 Uno.armed = Some m' /\
    funcs (get Port0 m') !!! 1%fin = nullptr /\
    args (get Port0 m') !!! 1%fin = nullptr /\
    Z.testbit (rising (get Port0 m')) 1 = false /\
    Z.testbit (falling (get Port0 m')) 1 = false /\
    Z.testbit (load Uno.PCMSK0 m') 1 = false /\
    load Uno.PCMSK0 m' = 1 /\
    (load Uno.PCMSK0 m' = 0 ->
     load Uno.PCICR m' = 0 /\ Z.testbit (load Uno.PCICR m') 0 = false) /\
    (load Uno.PCMSK0 m' <> 0 -> load Uno.PCICR m' = 1).
Proof.
  apply (detachInterrupt_clears (board := Uno.board) 9 Port0 1%fin Uno.armed uno_pin9).
  discriminate.
Defined.

(** ** disableInterrupt followed by enableInterrupt *)

(** C8. On a resolved pin whose slot holds a callback that is not
    null, [disableInterrupt] followed by [enableInterrupt] both
    return; after each of them the table's callbacks, arguments,
    [rising] and [falling] are those before the [disableInterrupt];
    and after the [enableInterrupt] the slot's bit of the mask
    register and the group's bit of the control register are set. *)
Theorem disable_then_enable_restores `{board : Board} (pin : Z) (p : port_id) (i : fin 8)
    (m : Machine) :
  resolves pin p i ->
  funcs (get p m) !!! i <> nullptr ->
  exists m1 m2,
    disableInterrupt pin m = Some m1 /\
    enableInterrupt pin m1 = Some m2 /\
    (funcs (get p m1) = funcs (get p m) /\ args (get p m1) = args (get p m) /\
     rising (get p m1) = rising (get p m) /\ falling (get p m1) = falling (get p m)) /\
    (funcs (get p m2) = funcs (get p m) /\ args (get p m2) = args (get p m) /\
     rising (get p m2) = rising (get p m) /\ falling (get p m2) = falling (get p m)) /\
    Z.testbit (load (digitalPinToPCMSK pin) m2) (bit_of i) = true /\
    Z.testbit (load (digitalPinToPCICR pin) m2) (digitalPinToPCICRbit pin) = true.
Proof.
  intros Hres Hf.
  destruct (disableInterrupt_result pin p i m Hres) as (m1 & Hrun1 & Hget & _ & _).
  assert (Hf1 : funcs (get p m1) !!! i <> 0) by now rewrite Hget.
  destruct (enableInterrupt_result pin p i m1 Hres Hf1)
    as (m2 & Hrun2 & Hfuncs & Hargs & Hrise & Hfall & _ & Hsfr & _).
  pose proof (bit_of_range i) as Hi.
  exists m1, m2. split; [assumption | ]. split; [assumption | ].
  split; [now rewrite Hget | ].
  split; [now rewrite Hfuncs, Hargs, Hrise, Hfall, Hget | ].
  apply unmasked_bits with (m := m1); auto.
  apply (resolved_group pin p i Hres).
Qed.

Lemma disable_then_enable_restores_witness :
  exists m1 m2,
    disableInterrupt (board := Uno.board) 9 Uno.armed = Some m1 /\
    enableInterrupt (board := Uno.board) 9 m1 = Some m2 /\
    (funcs (get Port0 m1) = funcs (get Port0 Uno.armed) /\
     args (get Port0 m1) = args (get Port0 Uno.armed) /\
     rising (get Port0 m1) = 3 /\ falling (get Port0 m1) = 1) /\
    (funcs (get Port0 m2) = funcs (get Port0 Uno.armed) /\
     args (get Port0 m2) = args (get Port0 Uno.armed) /\
     rising (get Port0 m2) = 3 /\ falling (get Port0 m2) = 1) /\
    Z.testbit (load Uno.PCMSK0 m2) 1 = true /\
    Z.testbit (load Uno.PCICR m2) 0 = true.
Proof.
  apply (disable_then_enable_restores (board := Uno.board) 9 Port0 1%fin Uno.armed
           uno_pin9).
  discriminate.
Defined.

(** ** What every run of the handler does, whatever the callbacks do *)

Lemma isr_loop_triggered
    (user_code : callback -> ptr -> bool -> Machine -> Machine) (p : port_id)
    (trig new_state nr : Z) (l : list (fin 8)) :
  remaining nr l ->
  forall (fuel : nat) (m : Machine) (log : list invocation),
    (length l < fuel)%nat ->
    exists m' log',
      isr_loop user_code fuel p trig new_state nr m log = Some (m', log ++ log') /\
      Forall (fun c => truthy (Z.land trig (_BV (bit_of (inv_slot c)))) = true) log'.
Proof.
  intros Hrem. induction Hrem as [ | nr i l Hi Hrem IH]; intros fuel m log Hfuel.
  - destruct fuel as [ | fuel]; [simpl in Hfuel; lia | ].
    exists m, []. split; [simpl; now rewrite app_nil_r | constructor].
  - destruct fuel as [ | fuel]; [simpl in Hfuel; lia | ].
    pose proof (index8_Some _ _ Hi) as Hnr. pose proof (bit_of_range i) as Hrange.
    cbn [isr_loop]. rewrite Hi.
    destruct (Z.ltb_spec nr 8) as [_ | Hge]; [ | lia].
    assert (Hnext : uint8_t (nr + 1) = nr + 1).
    { apply uint8_t_small. unfold is_uint8. lia. }
    rewrite Hnext. unfold isr_body.
    destruct (truthy (Z.land trig (_BV nr))) eqn:Ht; cbn [andb].
    + destruct (truthy (funcs (get p m) !!! i)).
      * set (level := truthy (Z.land (_BV nr) new_state)).
        set (c := mkInvocation i (funcs (get p m) !!! i) (args (get p m) !!! i) level).
        destruct (IH fuel (user_code (inv_func c) (inv_arg c) level m) (log ++ [c]))
          as (m' & log' & Hrun & Hall); [simpl in Hfuel; lia | ].
        cbn [inv_func inv_arg c] in Hrun. rewrite Hrun.
        exists m', (c :: log'). split.
        -- rewrite <- app_assoc. reflexivity.
        -- constructor; [ | assumption]. cbn [inv_slot c]. now rewrite <- Hnr.
      * apply IH. simpl in Hfuel. lia.
    + apply IH. simpl in Hfuel. lia.
Qed.

(** Fuel beyond what the loop needs does not change its result. *)
Lemma isr_loop_more_fuel
    (user_code : callback -> ptr -> bool -> Machine -> Machine) (p : port_id)
    (trig new_state : Z) (fuel : nat) :
  forall (nr : Z) (m : Machine) (log : list invocation) (r : Machine * list invocation),
    isr_loop user_code fuel p trig new_state nr m log = Some r ->
    isr_loop user_code (S fuel) p trig new_state nr m log = Some r.
Proof.
  induction fuel as [ | fuel IH]; intros nr m log r Hrun.
  - discriminate.
  - cbn [isr_loop] in Hrun. cbn [isr_loop].
    destruct (nr <? 8); [ | assumption].
    destruct (index8 nr) as [i | ]; [ | discriminate].
    destruct (isr_body user_code p trig new_state nr i m log) as [m1 log1].
    now apply IH.
Qed.

(** The handler returns on every machine, and each call it makes is
    for a slot whose bit triggers. *)
Lemma IMPLEMENT_ISR_calls_triggered
    (user_code : callback -> ptr -> bool -> Machine -> Machine) (p : port_id)
    (pin_register : Z) (m : Machine) :
  exists m' calls,
    IMPLEMENT_ISR user_code p pin_register m = Some (m', calls) /\
    forall c, In c calls ->
              bit_triggers (get p m) (load pin_register m) (inv_slot c) = true.
Proof.
  unfold IMPLEMENT_ISR.
  destruct (isr_loop_triggered user_code p
              (trigger_pins (get p m) (uint8_t (sfr m pin_register)))
              (uint8_t (sfr m pin_register)) 0 slots remaining_all 9
              (upd_port p (set_state (uint8_t (sfr m pin_register))) m) [])
    as (m' & calls & Hrun & Hall); [simpl; lia | ].
  exists m', calls. split; [exact Hrun | ].
  intros c Hc. rewrite List.Forall_forall in Hall. specialize (Hall c Hc).
  now rewrite trigger_pins_test in Hall.
Qed.

(** ** attachInterrupt with a mode that is none of the three *)

(** C10. On a resolved pin, with a callback that is not null and a
    mode that is neither RISING nor FALLING nor CHANGE,
    [attachInterrupt] returns with the callback and the argument
    stored in the slot and the slot's bit of the mask register set,
    and with the slot's bits of [rising] and [falling] clear; and on
    any machine in which these two bits are clear, a run of the
    group's handler returns without a call for that slot, whatever
    the callbacks do and whatever the input register holds. *)
Theorem attachInterrupt_other_mode `{board : Board} (pin : Z) (p : port_id) (i : fin 8)
    (func : callback) (arg : ptr) (mode : Z) (m : Machine) :
  resolves pin p i -> func <> nullptr ->
  mode <> RISING -> mode <> FALLING -> mode <> CHANGE ->
  exists m',
    attachInterrupt pin func arg mode m = Some m' /\
    funcs (get p m') !!! i = func /\
    args (get p m') !!! i = arg /\
    Z.testbit (load (digitalPinToPCMSK pin) m') (bit_of i) = true /\
    Z.testbit (rising (get p m')) (bit_of i) = false /\
    Z.testbit (falling (get p m')) (bit_of i) = false /\
    forall user_code pin_register later,
      Z.testbit (rising (get p later)) (bit_of i) = false ->
      Z.testbit (falling (get p later)) (bit_of i) = false ->
      exists m'' calls,
        IMPLEMENT_ISR user_code p pin_register later = Some (m'', calls) /\
        forall c, In c calls -> inv_slot c <> i.
Proof.
  intros Hres Hf Hr Hfa Hc.
  destruct (attachInterrupt_result pin p i func arg mode m Hres Hf)
    as (m' & Hrun & Hfuncs & Hargs & Hrise & Hfall & _ & Hsfr & _).
  pose proof (bit_of_range i) as Hi.
  apply Z.eqb_neq in Hr, Hfa, Hc. rewrite Hr, Hc in Hrise. rewrite Hfa, Hc in Hfall.
  exists m'. split; [assumption | ].
  split; [rewrite Hfuncs; apply vlookup_insert | ].
  split; [rewrite Hargs; apply vlookup_insert | ].
  split.
  { apply (unmasked_bits (digitalPinToPCICR pin) (digitalPinToPCMSK pin) (bit_of i)
             (digitalPinToPCICRbit pin) m m'); auto.
    apply (resolved_group pin p i Hres). }
  split; [rewrite Hrise; now apply (testbit_mode_bit _ _ false) | ].
  split; [rewrite Hfall; now apply (testbit_mode_bit _ _ false) | ].
  intros user_code pin_register later Hr' Hf'.
  destruct (IMPLEMENT_ISR_calls_triggered user_code p pin_register later)
    as (m'' & calls & Hisr & Htrig).
  exists m'', calls. split; [assumption | ].
  intros c Hin Heq. specialize (Htrig c Hin).
  unfold bit_triggers in Htrig. rewrite Heq, Hr', Hf' in Htrig.
  now rewrite andb_false_r in Htrig.
Qed.

Lemma attachInterrupt_other_mode_witness :
  exists m',
    attachInterrupt (board := Uno.board) 9 1001 2001 0 Uno.reset = Some m' /\
    funcs (get Port0 m') !!! 1%fin = 1001 /\
    args (get Port0 m') !!! 1%fin = 2001 /\
    Z.testbit (load Uno.PCMSK0 m') 1 = true /\
    Z.testbit (rising (get Port0 m')) 1 = false /\
    Z.testbit (falling (get Port0 m')) 1 = false /\
    forall user_code pin_register later,
      Z.testbit (rising (get Port0 later)) 1 = false ->
      Z.testbit (falling (get Port0 later)) 1 = false ->
      exists m'' calls,
        IMPLEMENT_ISR user_code Port0 pin_register later = Some (m'', calls) /\
        forall c, In c calls -> inv_slot c <> 1%fin.
Proof.
  apply (attachInterrupt_other_mode (board := Uno.board) 9 Port0 1%fin 1001 2001 0
           Uno.reset uno_pin9); discriminate.
Defined.

(** ** attachInterrupt against the handlers *)

Lemma registration_of_upd_state (p q : port_id) (pcmsk v : Z) (m : Machine) :
  registration_of p pcmsk (upd_port q (set_state v) m) = registration_of p pcmsk m.
Proof. destruct p, q; reflexivity. Qed.

Lemma isr_loop_registration
    (user_code : callback -> ptr -> bool -> Machine -> Machine)
    (p q : port_id) (pcmsk : Z) :
  keeps_registration user_code p pcmsk ->
  forall (fuel : nat) (trig new_state nr : Z) (m m' : Machine)
         (log log' : list invocation),
    isr_loop user_code fuel q trig new_state nr m log = Some (m', log') ->
    registration_of p pcmsk m' = registration_of p pcmsk m.
Proof.
  intros Hk. induction fuel as [ | fuel IH]; intros trig new_state nr m m' log log' Hrun.
  - discriminate.
  - cbn [isr_loop] in Hrun.
    destruct (nr <? 8); [ | now inversion Hrun].
    destruct (index8 nr) as [i | ]; [ | discriminate].
    unfold isr_body in Hrun.
    destruct (truthy (Z.land trig (_BV nr)) && truthy (funcs (get q m) !!! i)).
    + apply IH in Hrun. rewrite Hrun. apply Hk.
    + now apply IH in Hrun.
Qed.

Lemma IMPLEMENT_ISR_registration
    (user_code : callback -> ptr -> bool -> Machine -> Machine)
    (p q : port_id) (pcmsk pin_register : Z) (m m' : Machine) (log : list invocation) :
  keeps_registration user_code p pcmsk ->
  IMPLEMENT_ISR user_code q pin_register m = Some (m', log) ->
  registration_of p pcmsk m' = registration_of p pcmsk m.
Proof.
  intros Hk Hrun. unfold IMPLEMENT_ISR in Hrun.
  apply (isr_loop_registration user_code p q pcmsk Hk) in Hrun.
  rewrite Hrun. apply registration_of_upd_state.
Qed.

Lemma registration_of_noInterrupts (p : port_id) (pcmsk : Z) (m : Machine) :
  registration_of p pcmsk (noInterrupts m) = registration_of p pcmsk m.
Proof. destruct p; reflexivity. Qed.

Lemma interrupts_enabled_upd_port (p : port_id) (f : PcIntPort -> PcIntPort) (m : Machine) :
  interrupts_enabled (upd_port p f m) = interrupts_enabled m.
Proof. unfold interrupts_enabled. now rewrite SREG_upd_port. Qed.

Lemma interrupts_enabled_or_into (reg v : Z) (m : Machine) :
  interrupts_enabled (or_into reg v m) = interrupts_enabled m.
Proof. reflexivity. Qed.

Lemma interrupts_enabled_noInterrupts (m : Machine) :
  interrupts_enabled (noInterrupts m) = false.
Proof. unfold interrupts_enabled, noInterrupts, set_SREG; cbn [SREG]. apply Z.clearbit_eq. Qed.

Lemma load_or_into (reg reg' v : Z) (m : Machine) :
  load reg' (or_into reg v m) =
  if reg =? reg' then uint8_t (Z.lor (load reg' m) v) else load reg' m.
Proof.
  destruct (Z.eqb_spec reg reg') as [-> | Hne].
  - apply load_or_into_same.
  - apply load_or_into_other. auto.
Qed.

(** The statements of [attach_code], entered with the I flag clear,
    keep it clear and end with the registration made of the one they
    found. *)
Lemma attach_code_closes `{board : Board} (pin : Z) (p : port_id) (i : fin 8)
    (func : callback) (arg : ptr) (mode sreg : Z) (m : Machine) :
  interrupts_enabled m = false ->
  closes p (digitalPinToPCMSK pin)
    (attach_registration pin i func arg mode
       (registration_of p (digitalPinToPCMSK pin) m))
    (attach_code p i pin (digitalPinToPCICR pin) (digitalPinToPCMSK pin)
       (uint8_t (digitalPinToPCICRbit pin)) (_BV (bit_of i)) func arg mode
       (set_SREG sreg ;> Ret)) m.
Proof.
  intros Hoff. unfold attach_code.
  do 7 (apply closes_step; [destruct p; exact Hoff | ]).
  apply closes_last.
  unfold registration_of, attach_registration, refresh_state.
  autorewrite with machine. port_fields. cbn [reg_funcs reg_args reg_rising reg_falling reg_mask].
  f_equal.
  rewrite !load_or_into, Z.eqb_refl. autorewrite with machine.
  destruct (digitalPinToPCICR pin =? digitalPinToPCMSK pin); reflexivity.
Qed.

Lemma closes_runs (p : port_id) (pcmsk : Z) (post : registration) (t : thread)
    (m : Machine) :
  closes p pcmsk post t m ->
  exists m', run t m = Some m' /\ registration_of p pcmsk m' = post.
Proof.
  induction 1 as [f m Hpost | f k m Hoff Hrest IH].
  - exists (f m). split; [reflexivity | assumption].
  - exact IH.
Qed.

Section Interleaving.

Context {board : Board}.
Variable user_code : callback -> ptr -> bool -> Machine -> Machine.
Variables (pin : Z) (p : port_id) (i : fin 8) (func : callback) (arg : ptr) (mode : Z).
Hypothesis Hkeeps : keeps_registration user_code p (digitalPinToPCMSK pin).

Lemma attach_stage_step (pre : registration) (t t' : thread) (m m' : Machine) :
  istep user_code (t, m) (t', m') ->
  attach_stage pin p i func arg mode pre t m ->
  attach_stage pin p i func arg mode pre t' m'.
Proof.
  intros Hstep Hstage.
  inversion Hstep as [f k m1 | t1 m1 q reg m2 log Hon Hreg Hisr]; subst.
  - (* the foreground code runs a step *)
    inversion Hstage as [m0 Hpre | sreg m0 Hpre | t0 m0 Hoff Hcl | m0 Hpost].
    + now apply stage_saved.
    + apply stage_critical.
      * apply interrupts_enabled_noInterrupts.
      * rewrite <- Hpre, <- (registration_of_noInterrupts p _ m).
        apply attach_code_closes, interrupts_enabled_noInterrupts.
    + inversion Hcl as [f1 m1 Hpost | f1 k1 m1 Hoff' Hrest].
      * now apply stage_returned.
      * now apply stage_critical.
  - (* a handler runs *)
    pose proof (IMPLEMENT_ISR_registration user_code p q _ reg m m' log Hkeeps Hisr)
      as Hsame.
    inversion Hstage as [m0 Hpre | sreg m0 Hpre | t0 m0 Hoff Hcl | m0 Hpost].
    + apply stage_called. now rewrite Hsame.
    + apply stage_saved. now rewrite Hsame.
    + congruence.
    + apply stage_returned. now rewrite Hsame.
Qed.

Lemma attach_stage_steps (pre : registration) (c c' : thread * Machine) :
  isteps user_code c c' ->
  attach_stage pin p i func arg mode pre (fst c) (snd c) ->
  attach_stage pin p i func arg mode pre (fst c') (snd c').
Proof.
  induction 1 as [c | [t1 m1] [t2 m2] c3 Hstep Hrest IH]; intros Hstage.
  - assumption.
  - apply IH. simpl in *. now apply attach_stage_step with (t := t1) (m := m1).
Qed.

Lemma attach_stage_observed (pre : registration) (t : thread) (m : Machine) :
  attach_stage pin p i func arg mode pre t m ->
  interrupts_enabled m = true ->
  registration_of p (digitalPinToPCMSK pin) m = pre \/
  registration_of p (digitalPinToPCMSK pin) m =
    attach_registration pin i func arg mode pre.
Proof.
  intros Hstage Hon.
  inversion Hstage as [m1 Hpre Ht | sreg m1 Hpre Ht | t1 m1 Hoff Hcl | m1 Hpost Ht]; subst;
    auto; congruence.
Qed.

End Interleaving.

Lemma attachInterrupt_thread_resolved `{board : Board} (pin : Z) (p : port_id) (i : fin 8)
    (func : callback) (arg : ptr) (mode : Z) :
  resolves pin p i -> func <> 0 ->
  attachInterrupt_thread pin func arg mode =
  WITHOUT_INTERRUPTION
    (attach_code p i pin (digitalPinToPCICR pin) (digitalPinToPCMSK pin)
       (uint8_t (digitalPinToPCICRbit pin)) (_BV (bit_of i)) func arg mode).
Proof.
  intros Hres Hf. unfold attachInterrupt_thread.
  rewrite (resolved_mask pin p i Hres).
  destruct Hres as [Hc Hm Hg Hp Hb]. rewrite Hp, Hb.
  apply truthy_true in Hc, Hm, Hf. now rewrite Hc, Hm, Hf.
Qed.

(** The foreground code alone, no interrupt in between, takes the
    machine where [run] says. *)
Lemma run_isteps `{board : Board}
    (user_code : callback -> ptr -> bool -> Machine -> Machine)
    (t : thread) (m m' : Machine) :
  run t m = Some m' -> isteps user_code (t, m) (Ret, m').
Proof.
  revert m. induction t as [ | | f k IH]; intros m Hrun.
  - injection Hrun as <-. apply isteps_refl.
  - discriminate.
  - apply isteps_step with (c2 := (k m, f m)).
    + apply istep_foreground.
    + now apply IH.
Qed.

(** C4. [attachInterrupt] on a resolved pin with a callback that is
    not null, run step by step with the handlers of the board's
    groups started between any two steps at which the I flag is set,
    and with callbacks that leave the registration of the pin's group
    alone: on every machine that is reached and on which a handler
    can start, the registration of the group (the two arrays, the two
    mode masks and the mask register) is the one at the call or the
    one the call leaves when nothing interrupts it. *)
Theorem attachInterrupt_never_torn `{board : Board}
    (user_code : callback -> ptr -> bool -> Machine -> Machine)
    (pin : Z) (p : port_id) (i : fin 8) (func : callback) (arg : ptr) (mode : Z)
    (m0 : Machine) (t : thread) (m : Machine) :
  resolves pin p i -> func <> nullptr ->
  keeps_registration user_code p (digitalPinToPCMSK pin) ->
  isteps user_code (attachInterrupt_thread pin func arg mode, m0) (t, m) ->
  interrupts_enabled m = true ->
  registration_of p (digitalPinToPCMSK pin) m =
    registration_of p (digitalPinToPCMSK pin) m0 \/
  exists m',
    attachInterrupt pin func arg mode m0 = Some m' /\
    registration_of p (digitalPinToPCMSK pin) m =
      registration_of p (digitalPinToPCMSK pin) m'.
Proof.
  intros Hres Hf Hkeeps Hsteps Hon.
  rewrite (attachInterrupt_thread_resolved pin p i func arg mode Hres Hf) in Hsteps.
  pose proof (attach_stage_steps user_code pin p i func arg mode Hkeeps
                (registration_of p (digitalPinToPCMSK pin) m0) _ _ Hsteps
                (stage_called pin p i func arg mode _ m0 eq_refl)) as Hstage.
  destruct (attach_stage_observed pin p i func arg mode _ t m Hstage Hon)
    as [Hpre | Hpost].
  - now left.
  - right.
    destruct (closes_runs _ _ _ _ _
                (attach_code_closes pin p i func arg mode (uint8_t (SREG m0))
                   (noInterrupts m0) (interrupts_enabled_noInterrupts m0)))
      as (m' & Hrun & Hreg).
    exists m'. split.
    + now rewrite (attachInterrupt_runs pin p i Hres).
    + now rewrite Hpost, Hreg, registration_of_noInterrupts.
Qed.

Lemma led_keeps_registration (p : port_id) :
  keeps_registration Uno.led p Uno.PCMSK0.
Proof. intros f a level m. destruct p; reflexivity. Defined.

Lemma attachInterrupt_never_torn_witness :
  exists m,
    isteps (board := Uno.board) Uno.led
      (attachInterrupt_thread (board := Uno.board) 9 1001 2001 3, Uno.armed) (Ret, m) /\
    (registration_of Port0 Uno.PCMSK0 m = registration_of Port0 Uno.PCMSK0 Uno.armed \/
     exists m',
       attachInterrupt (board := Uno.board) 9 1001 2001 3 Uno.armed = Some m' /\
       registration_of Port0 Uno.PCMSK0 m = registration_of Port0 Uno.PCMSK0 m').
Proof.
  assert (Hreach :
    { m | isteps (board := Uno.board) Uno.led
            (attachInterrupt_thread (board := Uno.board) 9 1001 2001 3, Uno.armed)
            (Ret, m) /\
          interrupts_enabled m = true }).
  { (* the handler of group 0 first, then the call to its end *)
    eexists. split.
    - eapply isteps_step.
      + eapply (istep_interrupt (board := Uno.board) Uno.led _ Uno.armed Port0 Uno.PINB);
          reflexivity.
      + apply run_isteps. reflexivity.
    - reflexivity. }
  destruct Hreach as (m & Hsteps & Hon).
  exists m. split; [exact Hsteps | ].
  apply (attachInterrupt_never_torn (board := Uno.board) Uno.led 9 Port0 1%fin
           1001 2001 3 Uno.armed Ret m uno_pin9).
  - discriminate.
  - apply led_keeps_registration.
  - exact Hsteps.
  - exact Hon.
Defined.

(** * Further properties of the code *)

(** ** get_port and get_port_value *)

(** X1. [get_port] and [get_port_value] agree on every group number:
    where [get_port] yields a table, the number is one of 0..3 and
    [get_port_value] reads the input register of that table's group;
    where [get_port] yields none, [get_port_value] is 0. *)
Theorem get_port_value_agrees `{board : Board} (g : Z) (m : Machine) :
  match get_port g with
  | Some p =>
      0 <= g <= 3 /\
      exists reg, PCINT_INPUT_PORT p = Some reg /\ get_port_value g m = load reg m
  | None => get_port_value g m = 0
  end.
Proof.
  unfold get_port, get_port_value.
  destruct g as [ | [ [ | | ] | [ | | ] | ] | ]; try reflexivity;
    match goal with
    | |- context [PCINT_INPUT_PORT ?q] =>
        destruct (PCINT_INPUT_PORT q) as [reg | ] eqn:E; [ | reflexivity];
        split; [lia | exists reg; split; [exact E | reflexivity]]
    end.
Qed.

Lemma get_port_number `{board : Board} (g : Z) (p : port_id) :
  get_port g = Some p ->
  g = match p with Port0 => 0 | Port1 => 1 | Port2 => 2 | Port3 => 3 end.
Proof.
  unfold get_port.
  destruct g as [ | [ [ | | ] | [ | | ] | ] | ]; intros H; try discriminate H;
    match type of H with
    | context [PCINT_INPUT_PORT ?q] =>
        destruct (PCINT_INPUT_PORT q); [ | discriminate H];
        injection H as <-; reflexivity
    end.
Qed.

(** X2. No table serves two groups: two group numbers for which
    [get_port] yields the same table are the same number. *)
Theorem get_port_injective `{board : Board} (g g' : Z) (p : port_id) :
  get_port g = Some p -> get_port g' = Some p -> g = g'.
Proof.
  intros H H'. rewrite (get_port_number g p H). now rewrite (get_port_number g' p H').
Qed.

Lemma get_port_injective_witness :
  get_port (board := Uno.board) 2 = Some Port2 /\ 2 = 2.
Proof.
  split; [reflexivity | ].
  exact (get_port_injective (board := Uno.board) 2 2 Port2 eq_refl eq_refl).
Defined.

(** ** The I flag across the four functions *)

Lemma interrupts_enabled_uint8_t (m m' : Machine) :
  SREG m' = uint8_t (SREG m) -> interrupts_enabled m' = interrupts_enabled m.
Proof.
  unfold interrupts_enabled. intros ->. now rewrite testbit_uint8_t.
Qed.

Lemma SREG_masked_off (pcicr pcmsk bitmask groupmask : Z) (m : Machine) :
  SREG (masked_off pcicr pcmsk bitmask groupmask m) = SREG m.
Proof.
  unfold masked_off. destruct (_ =? 0); reflexivity.
Qed.

Lemma attachInterrupt_SREG `{board : Board} (pin : Z) (func : callback) (arg : ptr)
    (mode : Z) (m m' : Machine) :
  attachInterrupt pin func arg mode m = Some m' ->
  m' = m \/ SREG m' = uint8_t (SREG m).
Proof.
  unfold attachInterrupt, attachInterrupt_thread.
  destruct (get_port _) as [p | ]; [ | intros [= <-]; now left].
  destruct (truthy _ && truthy _ && truthy _); [ | intros [= <-]; now left].
  destruct (index8 _) as [i | ]; [ | discriminate].
  cbn [run WITHOUT_INTERRUPTION attach_code]. intros [= <-]. right. reflexivity.
Qed.

Lemma detachInterrupt_SREG `{board : Board} (pin : Z) (m m' : Machine) :
  detachInterrupt pin m = Some m' ->
  m' = m \/ SREG m' = uint8_t (SREG m).
Proof.
  unfold detachInterrupt, detachInterrupt_thread.
  destruct (get_port _) as [p | ]; [ | intros [= <-]; now left].
  destruct (truthy _ && truthy _); [ | intros [= <-]; now left].
  destruct (index8 _) as [i | ]; [ | discriminate].
  unfold WITHOUT_INTERRUPTION, detach_code. cbn [run]. rewrite run_mask_off. cbn [run].
  intros [= <-]. right. reflexivity.
Qed.

Lemma enableInterrupt_SREG `{board : Board} (pin : Z) (m m' : Machine) :
  enableInterrupt pin m = Some m' ->
  m' = m \/ SREG m' = uint8_t (SREG m).
Proof.
  unfold enableInterrupt, enableInterrupt_thread.
  destruct (get_port _) as [p | ]; [ | intros [= <-]; now left].
  destruct (truthy _ && truthy _); [ | intros [= <-]; now left].
  destruct (index8 _) as [i | ]; [ | discriminate].
  cbn [run]. destruct (truthy (funcs (get p m) !!! i)); [ | intros [= <-]; now left].
  cbn [run WITHOUT_INTERRUPTION enable_code]. intros [= <-]. right. reflexivity.
Qed.

Lemma disableInterrupt_SREG `{board : Board} (pin : Z) (m m' : Machine) :
  disableInterrupt pin m = Some m' ->
  m' = m \/ SREG m' = uint8_t (SREG m).
Proof.
  unfold disableInterrupt, disableInterrupt_thread.
  destruct (get_port _) as [p | ]; [ | intros [= <-]; now left].
  destruct (truthy _ && truthy _); [ | intros [= <-]; now left].
  unfold WITHOUT_INTERRUPTION. cbn [run]. rewrite run_mask_off. cbn [run].
  intros [= <-]. right. reflexivity.
Qed.

Lemma restored_flag (m m' : Machine) :
  m' = m \/ SREG m' = uint8_t (SREG m) ->
  interrupts_enabled m' = interrupts_enabled m /\
  (is_uint8 (SREG m) -> SREG m' = SREG m).
Proof.
  intros [-> | H].
  - split; reflexivity.
  - split; [now apply interrupts_enabled_uint8_t | ].
    intros Hr. now rewrite H, uint8_t_small.
Qed.

(** X3. Whatever the pin and the other arguments, each of the four
    functions that returns leaves the I flag of [SREG] as it found
    it: interrupts that were on are on again and interrupts that were
    off stay off; and an 8-bit [SREG] is left whole as it was. *)
Theorem registration_restores_SREG `{board : Board} (pin : Z) (m m' : Machine) :
  (exists func arg mode, attachInterrupt pin func arg mode m = Some m') \/
  detachInterrupt pin m = Some m' \/
  enableInterrupt pin m = Some m' \/
  disableInterrupt pin m = Some m' ->
  interrupts_enabled m' = interrupts_enabled m /\
  (is_uint8 (SREG m) -> SREG m' = SREG m).
Proof.
  intros [(func & arg & mode & H) | [H | [H | H]]]; apply restored_flag.
  - now apply attachInterrupt_SREG in H.
  - now apply detachInterrupt_SREG in H.
  - now apply enableInterrupt_SREG in H.
  - now apply disableInterrupt_SREG in H.
Qed.

Lemma registration_restores_SREG_witness :
  exists m',
    detachInterrupt (board := Uno.board) 9 Uno.armed = Some m' /\
    interrupts_enabled m' = true /\ SREG m' = 128.
Proof.
  eexists. split; [reflexivity | ].
  destruct (registration_restores_SREG (board := Uno.board) 9 Uno.armed _
              (or_intror (or_introl eq_refl))) as [Hflag Hsreg].
  split; [exact Hflag | ].
  apply Hsreg. unfold is_uint8. simpl. lia.
Defined.

(** ** What attachInterrupt and detachInterrupt leave alone *)

Lemma testbit_mode_other (x b n : Z) (c : bool) :
  0 <= b -> 0 <= n < 8 -> n <> b ->
  Z.testbit (uint8_t (if c then Z.lor x (_BV b) else Z.land x (Z.lnot (_BV b)))) n =
  Z.testbit x n.
Proof.
  intros Hb Hn Hne.
  assert (Hlt : (n <? 8) = true) by (apply Z.ltb_lt; lia).
  assert (Heq : (n =? b) = false) by (apply Z.eqb_neq; lia).
  destruct c.
  - rewrite testbit_set_bit, Hlt, Heq by lia. now rewrite orb_false_r.
  - rewrite testbit_clear_bit, Hlt, Heq by lia. cbn [negb andb]. now rewrite andb_true_r.
Qed.

Lemma attachInterrupt_other_tables `{board : Board} (pin : Z) (p q : port_id) (i : fin 8)
    (func : callback) (arg : ptr) (mode : Z) (m m' : Machine) :
  resolves pin p i -> func <> 0 -> p <> q ->
  attachInterrupt pin func arg mode m = Some m' ->
  get q m' = get q m.
Proof.
  intros Hres Hf Hne. rewrite (attachInterrupt_runs pin p i Hres) by assumption.
  cbn [run attach_code]. intros [= <-].
  destruct p, q; try (exfalso; apply Hne; reflexivity); reflexivity.
Qed.

Lemma detachInterrupt_other_tables `{board : Board} (pin : Z) (p q : port_id) (i : fin 8)
    (m m' : Machine) :
  resolves pin p i -> p <> q ->
  detachInterrupt pin m = Some m' ->
  get q m' = get q m.
Proof.
  intros Hres Hne. rewrite (detachInterrupt_runs pin p i Hres).
  unfold detach_code. cbn [run]. rewrite run_mask_off. cbn [run]. intros [= <-].
  rewrite get_set_SREG, get_masked_off.
  destruct p, q; try (exfalso; apply Hne; reflexivity); reflexivity.
Qed.

Lemma load_other_registers (pcicr pcmsk v w r : Z) (m m' : Machine) :
  sfr m' = sfr (or_into pcicr v (or_into pcmsk w m)) ->
  r <> pcmsk -> r <> pcicr -> load r m' = load r m.
Proof. intros Hsfr H1 H2. now apply input_register_kept with (1 := Hsfr). Qed.

Lemma load_masked_off_other (pcicr pcmsk bitmask groupmask r : Z) (m : Machine) :
  r <> pcmsk -> r <> pcicr ->
  load r (masked_off pcicr pcmsk bitmask groupmask m) = load r m.
Proof.
  intros H1 H2. unfold masked_off.
  destruct (_ =? 0); now rewrite ?load_and_into_other.
Qed.

(** X4. [attachInterrupt] on a resolved pin with a callback that is
    not null leaves the rest alone: the callbacks and arguments of the
    seven other slots, the bits of [rising] and [falling] of the seven
    other slots, the tables of the other groups, every register but
    the mask and the control register, and, when these are two
    registers, the mask bits of the seven other slots. *)
Theorem attachInterrupt_frame `{board : Board} (pin : Z) (p : port_id) (i : fin 8)
    (func : callback) (arg : ptr) (mode : Z) (m m' : Machine) :
  resolves pin p i -> func <> nullptr ->
  attachInterrupt pin func arg mode m = Some m' ->
  (forall j : fin 8, j <> i ->
     funcs (get p m') !!! j = funcs (get p m) !!! j /\
     args (get p m') !!! j = args (get p m) !!! j /\
     Z.testbit (rising (get p m')) (bit_of j) = Z.testbit (rising (get p m)) (bit_of j) /\
     Z.testbit (falling (get p m')) (bit_of j) = Z.testbit (falling (get p m)) (bit_of j)) /\
  (forall q, q <> p -> get q m' = get q m) /\
  (forall r, r <> digitalPinToPCMSK pin -> r <> digitalPinToPCICR pin ->
     load r m' = load r m) /\
  (digitalPinToPCICR pin <> digitalPinToPCMSK pin ->
   forall j : fin 8, j <> i ->
     Z.testbit (load (digitalPinToPCMSK pin) m') (bit_of j) =
     Z.testbit (load (digitalPinToPCMSK pin) m) (bit_of j)).
Proof.
  intros Hres Hf Hrun.
  destruct (attachInterrupt_result pin p i func arg mode m Hres Hf)
    as (m1 & Hrun1 & Hfuncs & Hargs & Hrise & Hfall & _ & Hsfr & _).
  assert (m1 = m') by congruence. subst m1.
  pose proof (bit_of_range i) as Hi.
  split; [ | split; [ | split]].
  - intros j Hj. pose proof (bit_of_range j) as Hjr.
    assert (Hbits : bit_of j <> bit_of i) by (intros Hb; now apply Hj, bit_of_inj).
    rewrite Hfuncs, Hargs, Hrise, Hfall.
    rewrite !vlookup_insert_ne by auto.
    rewrite !testbit_mode_other by (auto; lia). auto.
  - intros q Hq. apply (attachInterrupt_other_tables pin p q i func arg mode); auto.
  - intros r H1 H2. now apply load_other_registers with (1 := Hsfr).
  - intros Hne j Hj. pose proof (bit_of_range j) as Hjr.
    rewrite (load_eq_of_sfr _ _ _ Hsfr).
    rewrite load_or_into_other by auto.
    rewrite load_or_into_same, testbit_set_bit by lia.
    rewrite (bit_of_eqb i j) by auto. rewrite orb_false_r.
    unfold load. rewrite testbit_uint8_t. now rewrite andb_assoc, andb_diag.
Qed.

Lemma attachInterrupt_frame_witness :
  exists m',
    attachInterrupt (board := Uno.board) 9 1001 2001 3 Uno.armed = Some m' /\
    funcs (get Port0 m') !!! 0%fin = 1000 /\
    get Port2 m' = get Port2 Uno.armed /\
    load Uno.PINB m' = 3.
Proof.
  eexists. split; [reflexivity | ].
  destruct (attachInterrupt_frame (board := Uno.board) 9 Port0 1%fin 1001 2001 3
              Uno.armed _ uno_pin9 ltac:(discriminate) eq_refl)
    as (Hslots & Htables & Hregs & _).
  split; [ | split].
  - destruct (Hslots 0%fin ltac:(discriminate)) as [Hfunc _]. exact Hfunc.
  - apply Htables. discriminate.
  - apply Hregs; discriminate.
Defined.

(** X5. [detachInterrupt] on a resolved pin leaves the rest alone:
    the callbacks and arguments of the seven other slots, the bits of
    [rising] and [falling] of the seven other slots, the whole
    snapshot, the tables of the other groups, every register but the
    mask and the control register, and, when these are two registers,
    the mask bits of the seven other slots. *)
Theorem detachInterrupt_frame `{board : Board} (pin : Z) (p : port_id) (i : fin 8)
    (m m' : Machine) :
  resolves pin p i ->
  detachInterrupt pin m = Some m' ->
  (forall j : fin 8, j <> i ->
     funcs (get p m') !!! j = funcs (get p m) !!! j /\
     args (get p m') !!! j = args (get p m) !!! j /\
     Z.testbit (rising (get p m')) (bit_of j) = Z.testbit (rising (get p m)) (bit_of j) /\
     Z.testbit (falling (get p m')) (bit_of j) = Z.testbit (falling (get p m)) (bit_of j)) /\
  state (get p m') = state (get p m) /\
  (forall q, q <> p -> get q m' = get q m) /\
  (forall r, r <> digitalPinToPCMSK pin -> r <> digitalPinToPCICR pin ->
     load r m' = load r m) /\
  (digitalPinToPCICR pin <> digitalPinToPCMSK pin ->
   forall j : fin 8, j <> i ->
     Z.testbit (load (digitalPinToPCMSK pin) m') (bit_of j) =
     Z.testbit (load (digitalPinToPCMSK pin) m) (bit_of j)).
Proof.
  intros Hres Hrun.
  destruct (detachInterrupt_result pin p i m Hres)
    as (m1 & Hrun1 & Hfuncs & Hargs & Hrise & Hfall & Hstate & Hsfr & _).
  assert (m1 = m') by congruence. subst m1.
  pose proof (bit_of_range i) as Hi.
  split; [ | split; [ | split; [ | split]]].
  - intros j Hj. pose proof (bit_of_range j) as Hjr.
    assert (Hbits : bit_of j <> bit_of i) by (intros Hb; now apply Hj, bit_of_inj).
    rewrite Hfuncs, Hargs, Hrise, Hfall.
    rewrite !vlookup_insert_ne by auto.
    rewrite !(testbit_mode_other _ _ _ false) by (auto; lia). auto.
  - assumption.
  - intros q Hq. apply (detachInterrupt_other_tables pin p q i); auto.
  - intros r H1 H2. rewrite (load_eq_of_sfr _ _ _ Hsfr).
    now apply load_masked_off_other.
  - intros Hne j Hj. pose proof (bit_of_range j) as Hjr.
    rewrite (load_eq_of_sfr _ _ _ Hsfr), load_masked_off_mask by assumption.
    rewrite testbit_clear_bit by lia.
    rewrite (bit_of_eqb i j) by auto. cbn [negb]. rewrite andb_true_r.
    unfold load. rewrite testbit_uint8_t. now rewrite andb_assoc, andb_diag.
Qed.

Lemma detachInterrupt_frame_witness :
  exists m',
    detachInterrupt (board := Uno.board) 9 Uno.armed = Some m' /\
    funcs (get Port0 m') !!! 0%fin = 1000 /\
    state (get Port0 m') = 0 /\
    Z.testbit (load Uno.PCMSK0 m') 0 = true.
Proof.
  eexists. split; [reflexivity | ].
  destruct (detachInterrupt_frame (board := Uno.board) 9 Port0 1%fin
              Uno.armed _ uno_pin9 eq_refl)
    as (Hslots & Hstate & _ & _ & Hmask).
  split; [ | split].
  - destruct (Hslots 0%fin ltac:(discriminate)) as [Hfunc _]. exact Hfunc.
  - exact Hstate.
  - exact (Hmask ltac:(discriminate) 0%fin ltac:(discriminate)).
Defined.

(** ** More on one run of the handler *)

Lemma isr_loop_invariant
    (user_code : callback -> ptr -> bool -> Machine -> Machine) (q : port_id)
    (P : Machine -> Prop) :
  (forall f a level m, P m -> P (user_code f a level m)) ->
  forall (fuel : nat) (trig new_state nr : Z) (m m' : Machine)
         (log log' : list invocation),
    isr_loop user_code fuel q trig new_state nr m log = Some (m', log') ->
    P m -> P m'.
Proof.
  intros HP. induction fuel as [ | fuel IH]; intros trig new_state nr m m' log log' Hrun Hm.
  - discriminate.
  - cbn [isr_loop] in Hrun.
    destruct (nr <? 8); [ | injection Hrun as <- _; assumption].
    destruct (index8 nr) as [i | ]; [ | discriminate].
    unfold isr_body in Hrun.
    destruct (truthy (Z.land trig (_BV nr)) && truthy (funcs (get q m) !!! i)).
    + apply IH in Hrun; auto.
    + apply IH in Hrun; auto.
Qed.

Lemma calls_skip_unchanged
    (user_code : callback -> ptr -> bool -> Machine -> Machine) (p : port_id)
    (pin_register : Z) (m : Machine) (i : fin 8) :
  Z.testbit (state (get p m)) (bit_of i) = Z.testbit (load pin_register m) (bit_of i) ->
  exists m' calls,
    IMPLEMENT_ISR user_code p pin_register m = Some (m', calls) /\
    forall c, In c calls -> inv_slot c <> i.
Proof.
  intros Hsame.
  destruct (IMPLEMENT_ISR_calls_triggered user_code p pin_register m)
    as (m' & calls & Hrun & Htrig).
  exists m', calls. split; [assumption | ].
  intros c Hin Heq. specialize (Htrig c Hin).
  unfold bit_triggers in Htrig. rewrite Heq, Hsame, xorb_nilpotent in Htrig.
  discriminate.
Qed.

(** X6. A run of the handler makes no call for a slot whose bit of
    the input register is the bit the snapshot has, whatever the
    slot's mode and callback and whatever the callbacks of the other
    slots do: levels the pin went through between two runs do not
    count, only the snapshot and the value read do. *)
Theorem unchanged_bit_not_called
    (user_code : callback -> ptr -> bool -> Machine -> Machine) (p : port_id)
    (pin_register : Z) (m : Machine) (i : fin 8) :
  Z.testbit (state (get p m)) (bit_of i) = Z.testbit (load pin_register m) (bit_of i) ->
  exists m' calls,
    IMPLEMENT_ISR user_code p pin_register m = Some (m', calls) /\
    forall c, In c calls -> inv_slot c <> i.
Proof. apply calls_skip_unchanged. Qed.

Lemma unchanged_bit_not_called_witness :
  exists m' calls,
    IMPLEMENT_ISR Uno.led Port0 Uno.PINB Uno.armed = Some (m', calls) /\
    forall c, In c calls -> inv_slot c <> 2%fin.
Proof.
  exact (unchanged_bit_not_called Uno.led Port0 Uno.PINB Uno.armed 2%fin eq_refl).
Defined.

(** X7. Right after [attachInterrupt] with a callback that is not
    null, or [enableInterrupt] on a slot whose callback is not null,
    a run of the group's handler that finds the input register as the
    call read it makes no call for the pin's slot: the bit refreshed
    in the snapshot keeps a level that was there before the call from
    being reported as a change. *)
Theorem no_call_right_after_attach `{board : Board}
    (user_code : callback -> ptr -> bool -> Machine -> Machine)
    (pin : Z) (p : port_id) (i : fin 8) (reg : Z) (m m' : Machine) :
  resolves pin p i ->
  PCINT_INPUT_PORT p = Some reg ->
  (exists func arg mode,
     func <> nullptr /\ attachInterrupt pin func arg mode m = Some m') \/
  (funcs (get p m) !!! i <> nullptr /\ enableInterrupt pin m = Some m') ->
  exists m'' calls,
    IMPLEMENT_ISR user_code p reg m' = Some (m'', calls) /\
    forall c, In c calls -> inv_slot c <> i.
Proof.
  intros Hres Hreg Hcall. apply calls_skip_unchanged.
  assert (Hrefreshed : refreshes_only p i reg m m').
  { destruct Hcall as [(func & arg & mode & Hf & Hrun) | [Hf Hrun]].
    - destruct (attachInterrupt_result pin p i func arg mode m Hres Hf)
        as (m1 & Hrun1 & _ & _ & _ & _ & Hstate & _).
      assert (m1 = m') by congruence. subst m1.
      now apply (refreshed_state pin).
    - destruct (enableInterrupt_result pin p i m Hres Hf)
        as (m1 & Hrun1 & _ & _ & _ & _ & Hstate & _).
      assert (m1 = m') by congruence. subst m1.
      now apply (refreshed_state pin). }
  apply Hrefreshed.
Qed.

Lemma no_call_right_after_attach_witness :
  exists m',
    attachInterrupt (board := Uno.board) 9 1001 2001 3 Uno.armed = Some m' /\
    exists m'' calls,
      IMPLEMENT_ISR Uno.led Port0 Uno.PINB m' = Some (m'', calls) /\
      forall c, In c calls -> inv_slot c <> 1%fin.
Proof.
  eexists. split; [reflexivity | ].
  apply (no_call_right_after_attach (board := Uno.board) Uno.led 9 Port0 1%fin
           Uno.PINB Uno.armed _ uno_pin9 eq_refl).
  left. exists 1001, 2001, 3. split; [discriminate | reflexivity].
Defined.

Lemma IMPLEMENT_ISR_expected
    (user_code : callback -> ptr -> bool -> Machine -> Machine) (p : port_id)
    (pin_register : Z) (m : Machine) :
  keeps_slots user_code p ->
  IMPLEMENT_ISR user_code p pin_register m =
  Some (after_calls user_code
          (expected_invocations (get p m) (load pin_register m))
          (upd_port p (set_state (load pin_register m)) m),
        expected_invocations (get p m) (load pin_register m)).
Proof.
  intros Hk. unfold IMPLEMENT_ISR. fold (load pin_register m).
  rewrite (isr_loop_fold user_code p (get p m) (load pin_register m) 0 slots
             remaining_all) by (simpl; lia).
  rewrite (deliver_fold_keeps user_code p (get p m) (load pin_register m) slots Hk);
    [reflexivity | now rewrite get_upd_port ..].
Qed.

Lemma calls_for_absent (port : PcIntPort) (v : Z) (i : fin 8) (l : list (fin 8)) :
  ~ In i l -> calls_for i (invocations_over port v l) = [].
Proof.
  unfold calls_for, invocations_over. induction l as [ | j l IH]; intros Hnot.
  - reflexivity.
  - cbn [List.filter]. destruct (delivers port v j).
    + cbn [map List.filter invocation_of inv_slot].
      rewrite bool_decide_eq_false_2 by (intros ->; apply Hnot; now left).
      apply IH. intros Hin. apply Hnot. now right.
    + apply IH. intros Hin. apply Hnot. now right.
Qed.

Lemma calls_for_present (port : PcIntPort) (v : Z) (i : fin 8) (l : list (fin 8)) :
  List.NoDup l -> In i l ->
  calls_for i (invocations_over port v l) =
  if delivers port v i then [invocation_of port v i] else [].
Proof.
  intros Hnd. induction Hnd as [ | j l Hj Hnd IH]; intros Hin.
  - destruct Hin.
  - destruct (decide (j = i)) as [-> | Hne].
    + unfold calls_for, invocations_over. cbn [List.filter].
      destruct (delivers port v i).
      * cbn [map List.filter invocation_of inv_slot].
        rewrite bool_decide_eq_true_2 by reflexivity.
        f_equal. now apply (calls_for_absent port v i l).
      * now apply (calls_for_absent port v i l).
    + destruct Hin as [Heq | Hin]; [contradiction | ].
      specialize (IH Hin). unfold calls_for, invocations_over in *.
      cbn [List.filter]. destruct (delivers port v j); [ | exact IH].
      cbn [map List.filter invocation_of inv_slot].
      now rewrite bool_decide_eq_false_2.
Qed.

Lemma slots_NoDup : List.NoDup slots.
Proof.
  unfold slots.
  repeat (apply List.NoDup_cons; [simpl; intuition discriminate | ]).
  apply List.NoDup_nil.
Qed.

Lemma slots_all (i : fin 8) : In i slots.
Proof.
  unfold slots. repeat (inv_fin i; [simpl; tauto | intros i]). inv_fin i.
Qed.

(** In one run, with callbacks that leave the arrays alone, slot [i]
    is called once when it delivers and not at all when it does not. *)
Lemma IMPLEMENT_ISR_calls_for
    (user_code : callback -> ptr -> bool -> Machine -> Machine) (p : port_id)
    (pin_register : Z) (m : Machine) (i : fin 8) :
  keeps_slots user_code p ->
  exists m' calls,
    IMPLEMENT_ISR user_code p pin_register m = Some (m', calls) /\
    calls_for i calls =
    if delivers (get p m) (load pin_register m) i
    then [invocation_of (get p m) (load pin_register m) i] else [].
Proof.
  intros Hk. rewrite (IMPLEMENT_ISR_expected user_code p pin_register m Hk).
  eexists _, _. split; [reflexivity | ].
  apply calls_for_present; [apply slots_NoDup | apply slots_all].
Qed.

(** X8. After [attachInterrupt] on a resolved pin, with callbacks
    that leave the arrays alone, on a machine that has the group's
    table as the call left it, a run of the group's handler calls the
    pin's callback once, with its argument and the level read, when
    that level differs from the level the call read and is high under
    RISING, low under FALLING, either under CHANGE; and it makes no
    call for the pin otherwise. *)
Theorem attach_then_delivery `{board : Board}
    (user_code : callback -> ptr -> bool -> Machine -> Machine)
    (pin : Z) (p : port_id) (i : fin 8) (reg : Z) (func : callback) (arg : ptr)
    (mode : Z) (m m' later : Machine) :
  resolves pin p i ->
  PCINT_INPUT_PORT p = Some reg ->
  func <> nullptr ->
  keeps_slots user_code p ->
  attachInterrupt pin func arg mode m = Some m' ->
  get p later = get p m' ->
  exists m'' calls,
    IMPLEMENT_ISR user_code p reg later = Some (m'', calls) /\
    calls_for i calls =
    if xorb (Z.testbit (load reg m') (bit_of i)) (Z.testbit (load reg later) (bit_of i)) &&
       ((((mode =? RISING) || (mode =? CHANGE)) && Z.testbit (load reg later) (bit_of i)) ||
        (((mode =? FALLING) || (mode =? CHANGE)) &&
         negb (Z.testbit (load reg later) (bit_of i))))
    then [mkInvocation i func arg (Z.testbit (load reg later) (bit_of i))]
    else [].
Proof.
  intros Hres Hreg Hf Hk Hrun Hlater.
  destruct (attachInterrupt_result pin p i func arg mode m Hres Hf)
    as (m1 & Hrun1 & Hfuncs & Hargs & Hrise & Hfall & Hstate & _).
  assert (m1 = m') by congruence. subst m1.
  pose proof (bit_of_range i) as Hi.
  destruct (refreshed_state pin p i reg m m' Hres Hreg Hstate) as [Hbit _].
  destruct (IMPLEMENT_ISR_calls_for user_code p reg later i Hk)
    as (m'' & calls & Hisr & Hcalls).
  exists m'', calls. split; [assumption | ].
  rewrite Hcalls. unfold delivers, bit_triggers, invocation_of.
  rewrite Hlater, Hbit, Hfuncs, Hargs, Hrise, Hfall.
  rewrite !vlookup_insert, !testbit_mode_bit by lia.
  apply truthy_true in Hf. rewrite Hf, andb_true_r. reflexivity.
Qed.

Lemma attach_then_delivery_witness :
  exists m',
    attachInterrupt (board := Uno.board) 9 1001 2001 1 Uno.reset = Some m' /\
    exists m'' calls,
      IMPLEMENT_ISR Uno.led Port0 Uno.PINB (store Uno.PINB 2 m') = Some (m'', calls) /\
      calls_for 1%fin calls = [mkInvocation 1%fin 1001 2001 true].
Proof.
  eexists. split; [reflexivity | ].
  match goal with
  | |- exists m'' calls, IMPLEMENT_ISR _ _ _ (store _ _ ?M) = _ /\ _ =>
      exact (attach_then_delivery (board := Uno.board) Uno.led 9 Port0 1%fin Uno.PINB
               1001 2001 1 Uno.reset M (store Uno.PINB 2 M) uno_pin9 eq_refl
               ltac:(discriminate) (led_keeps_slots Port0) eq_refl eq_refl)
  end.
Defined.

(** X9. With callbacks that leave the snapshot and the input register
    alone, a second run of the handler that follows a first one with
    the input register unchanged makes no call at all. *)
Theorem second_run_is_silent
    (user_code : callback -> ptr -> bool -> Machine -> Machine) (p : port_id)
    (pin_register : Z) (m m1 : Machine) (calls1 : list invocation) :
  keeps_snapshot user_code p pin_register ->
  IMPLEMENT_ISR user_code p pin_register m = Some (m1, calls1) ->
  exists m2, IMPLEMENT_ISR user_code p pin_register m1 = Some (m2, []).
Proof.
  intros Hk Hrun.
  assert (Hinv : state (get p m1) = load pin_register m /\
                 load pin_register m1 = load pin_register m).
  { unfold IMPLEMENT_ISR in Hrun.
    apply (isr_loop_invariant user_code p
             (fun x => state (get p x) = load pin_register m /\
                       load pin_register x = load pin_register m)) in Hrun.
    - exact Hrun.
    - intros f a level x [Hs Hl]. destruct (Hk f a level x) as [Hs' Hl'].
      split; congruence.
    - rewrite get_upd_port, load_upd_port. split; reflexivity. }
  destruct Hinv as [Hs Hl].
  destruct (IMPLEMENT_ISR_calls_triggered user_code p pin_register m1)
    as (m2 & calls2 & Hrun2 & Htrig).
  exists m2. rewrite Hrun2. destruct calls2 as [ | c calls2]; [reflexivity | ].
  specialize (Htrig c (or_introl eq_refl)). unfold bit_triggers in Htrig.
  rewrite Hs, Hl, xorb_nilpotent in Htrig. discriminate.
Qed.

Lemma led_keeps_snapshot (p : port_id) : keeps_snapshot Uno.led p Uno.PINB.
Proof.
  intros f a level m. unfold Uno.led. rewrite get_store. split; reflexivity.
Defined.

Lemma second_run_is_silent_witness :
  exists m1 calls1 m2,
    IMPLEMENT_ISR Uno.led Port0 Uno.PINB Uno.armed = Some (m1, calls1) /\
    length calls1 = 2%nat /\
    IMPLEMENT_ISR Uno.led Port0 Uno.PINB m1 = Some (m2, []).
Proof.
  eexists _, _.
  destruct (second_run_is_silent Uno.led Port0 Uno.PINB Uno.armed _ _
              (led_keeps_snapshot Port0) eq_refl) as [m2 Hsecond].
  exists m2. split; [reflexivity | ]. split; [reflexivity | exact Hsecond].
Defined.

(** ** disableInterrupt *)

(** X10. [disableInterrupt] does not take the pin out of the
    handler's pass: with callbacks that leave the arrays alone and an
    input register that is neither the mask nor the control register,
    a run of a handler after the call makes the same calls as a run
    before it, the pin's own callback among them when its bit
    triggers. *)
Theorem disable_keeps_dispatch `{board : Board}
    (user_code : callback -> ptr -> bool -> Machine -> Machine)
    (pin : Z) (p : port_id) (i : fin 8) (q : port_id) (reg : Z) (m m' : Machine) :
  resolves pin p i ->
  keeps_slots user_code q ->
  reg <> digitalPinToPCMSK pin -> reg <> digitalPinToPCICR pin ->
  disableInterrupt pin m = Some m' ->
  exists m1 m1' calls,
    IMPLEMENT_ISR user_code q reg m = Some (m1, calls) /\
    IMPLEMENT_ISR user_code q reg m' = Some (m1', calls).
Proof.
  intros Hres Hk H1 H2 Hrun.
  destruct (disableInterrupt_result pin p i m Hres) as (m1 & Hrun1 & Hget & Hsfr & _).
  assert (m1 = m') by congruence. subst m1.
  assert (Hload : load reg m' = load reg m).
  { rewrite (load_eq_of_sfr _ _ _ Hsfr). now apply load_masked_off_other. }
  rewrite !(IMPLEMENT_ISR_expected user_code q reg) by assumption.
  rewrite Hget, Hload. eexists _, _, _. split; reflexivity.
Qed.

Lemma disable_keeps_dispatch_witness :
  exists m',
    disableInterrupt (board := Uno.board) 9 Uno.armed = Some m' /\
    exists m1 m1' calls,
      IMPLEMENT_ISR Uno.led Port0 Uno.PINB Uno.armed = Some (m1, calls) /\
      IMPLEMENT_ISR Uno.led Port0 Uno.PINB m' = Some (m1', calls).
Proof.
  eexists. split; [reflexivity | ].
  apply (disable_keeps_dispatch (board := Uno.board) Uno.led 9 Port0 1%fin Port0
           Uno.PINB Uno.armed _ uno_pin9 (led_keeps_slots Port0)).
  - discriminate.
  - discriminate.
  - reflexivity.
Defined.

(** X11. [disableInterrupt] on a resolved pin whose mask and control
    registers are two registers changes no table and no other
    register; it clears the pin's bit of the mask register and keeps
    the seven other bits; and it clears the group's bit of the
    control register when the mask register has become zero, leaving
    the control register as it was when it has not. *)
Theorem disableInterrupt_masks `{board : Board} (pin : Z) (p : port_id) (i : fin 8)
    (m m' : Machine) :
  resolves pin p i ->
  digitalPinToPCICR pin <> digitalPinToPCMSK pin ->
  disableInterrupt pin m = Some m' ->
  (forall q, get q m' = get q m) /\
  (forall r, r <> digitalPinToPCMSK pin -> r <> digitalPinToPCICR pin ->
     load r m' = load r m) /\
  Z.testbit (load (digitalPinToPCMSK pin) m') (bit_of i) = false /\
  (forall j : fin 8, j <> i ->
     Z.testbit (load (digitalPinToPCMSK pin) m') (bit_of j) =
     Z.testbit (load (digitalPinToPCMSK pin) m) (bit_of j)) /\
  (load (digitalPinToPCMSK pin) m' = 0 ->
   load (digitalPinToPCICR pin) m' =
     uint8_t (Z.land (load (digitalPinToPCICR pin) m)
                     (Z.lnot (_BV (digitalPinToPCICRbit pin))))) /\
  (load (digitalPinToPCMSK pin) m' <> 0 ->
   load (digitalPinToPCICR pin) m' = load (digitalPinToPCICR pin) m).
Proof.
  intros Hres Hne Hrun.
  destruct (disableInterrupt_result pin p i m Hres) as (m1 & Hrun1 & Hget & Hsfr & _).
  assert (m1 = m') by congruence. subst m1.
  pose proof (bit_of_range i) as Hi.
  assert (Hmask : load (digitalPinToPCMSK pin) m' =
                  uint8_t (Z.land (load (digitalPinToPCMSK pin) m)
                                  (Z.lnot (_BV (bit_of i))))).
  { rewrite (load_eq_of_sfr _ _ _ Hsfr). now apply load_masked_off_mask. }
  assert (Hctl : load (digitalPinToPCICR pin) m' =
                 if load (digitalPinToPCMSK pin) m' =? 0
                 then uint8_t (Z.land (load (digitalPinToPCICR pin) m)
                                      (Z.lnot (_BV (digitalPinToPCICRbit pin))))
                 else load (digitalPinToPCICR pin) m).
  { rewrite !(load_eq_of_sfr _ _ _ Hsfr). now apply load_masked_off_control. }
  split; [assumption | ].
  split.
  { intros r H1 H2. rewrite (load_eq_of_sfr _ _ _ Hsfr).
    now apply load_masked_off_other. }
  split.
  { rewrite Hmask, testbit_clear_bit, Z.eqb_refl by lia. cbn [negb].
    now rewrite !andb_false_r. }
  split.
  { intros j Hj. pose proof (bit_of_range j) as Hjr.
    rewrite Hmask, testbit_clear_bit by lia.
    rewrite (bit_of_eqb i j) by auto. cbn [negb]. rewrite andb_true_r.
    unfold load. rewrite testbit_uint8_t. now rewrite andb_assoc, andb_diag. }
  split.
  - intros Hzero. now rewrite Hctl, Hzero.
  - intros Hnz. rewrite Hctl. apply Z.eqb_neq in Hnz. now rewrite Hnz.
Qed.

Lemma disableInterrupt_masks_witness :
  exists m',
    disableInterrupt (board := Uno.board) 9 Uno.armed = Some m' /\
    get Port0 m' = get Port0 Uno.armed /\
    load Uno.PCMSK0 m' = 1 /\
    load Uno.PCICR m' = 1.
Proof.
  eexists. split; [reflexivity | ].
  destruct (disableInterrupt_masks (board := Uno.board) 9 Port0 1%fin Uno.armed _
              uno_pin9 ltac:(discriminate) eq_refl)
    as (Htables & _ & _ & _ & _ & Hkept).
  split; [apply Htables | ]. split; [reflexivity | ].
  apply Hkept. discriminate.
Defined.

(** ** detachInterrupt and the handler *)

(** X12. After [detachInterrupt] on a resolved pin, on any machine in
    which the slot's bits of [rising] and [falling] are still those
    the call left, a run of the group's handler makes no call for the
    slot, whatever the input register holds and whatever the callbacks
    do. *)
Theorem detach_then_silence `{board : Board} (pin : Z) (p : port_id) (i : fin 8)
    (m m' : Machine) :
  resolves pin p i ->
  detachInterrupt pin m = Some m' ->
  forall user_code pin_register later,
    Z.testbit (rising (get p later)) (bit_of i) =
      Z.testbit (rising (get p m')) (bit_of i) ->
    Z.testbit (falling (get p later)) (bit_of i) =
      Z.testbit (falling (get p m')) (bit_of i) ->
    exists m'' calls,
      IMPLEMENT_ISR user_code p pin_register later = Some (m'', calls) /\
      forall c, In c calls -> inv_slot c <> i.
Proof.
  intros Hres Hrun user_code pin_register later Hr Hf.
  destruct (detachInterrupt_result pin p i m Hres)
    as (m1 & Hrun1 & _ & _ & Hrise & Hfall & _).
  assert (m1 = m') by congruence. subst m1.
  pose proof (bit_of_range i) as Hi.
  rewrite Hrise, (testbit_mode_bit _ _ false) in Hr by lia.
  rewrite Hfall, (testbit_mode_bit _ _ false) in Hf by lia.
  destruct (IMPLEMENT_ISR_calls_triggered user_code p pin_register later)
    as (m'' & calls & Hisr & Htrig).
  exists m'', calls. split; [assumption | ].
  intros c Hin Heq. specialize (Htrig c Hin).
  unfold bit_triggers in Htrig. rewrite Heq, Hr, Hf in Htrig.
  now rewrite andb_false_r in Htrig.
Qed.

Lemma detach_then_silence_witness :
  exists m',
    detachInterrupt (board := Uno.board) 9 Uno.armed = Some m' /\
    exists m'' calls,
      IMPLEMENT_ISR Uno.led Port0 Uno.PINB m' = Some (m'', calls) /\
      forall c, In c calls -> inv_slot c <> 1%fin.
Proof.
  eexists. split; [reflexivity | ].
  apply (detach_then_silence (board := Uno.board) 9 Port0 1%fin Uno.armed _
           uno_pin9 eq_refl Uno.led Uno.PINB); reflexivity.
Defined.

(** ** Calls one after the other *)

Lemma vinsert_twice {A : Type} (i : fin 8) (x y : A) (v : vec A 8) :
  vinsert i x (vinsert i y v) = vinsert i x v.
Proof.
  apply vec_eq. intros j. destruct (decide (i = j)) as [-> | Hne].
  - now rewrite !vlookup_insert.
  - now rewrite !vlookup_insert_ne.
Qed.

Lemma vinsert_back {A : Type} (i : fin 8) (x : A) (v : vec A 8) :
  vinsert i (v !!! i) (vinsert i x v) = v.
Proof. rewrite vinsert_twice. apply vlookup_insert_self. Qed.

(** The bit a mode writes does not depend on what an earlier mode
    wrote there. *)
Lemma mode_bit_overrides (x b : Z) (c1 c2 : bool) :
  0 <= b ->
  uint8_t (if c2
           then Z.lor (uint8_t (if c1 then Z.lor x (_BV b)
                                else Z.land x (Z.lnot (_BV b)))) (_BV b)
           else Z.land (uint8_t (if c1 then Z.lor x (_BV b)
                                 else Z.land x (Z.lnot (_BV b)))) (Z.lnot (_BV b))) =
  uint8_t (if c2 then Z.lor x (_BV b) else Z.land x (Z.lnot (_BV b))).
Proof.
  intros Hb. apply Z.bits_inj'. intros n Hn.
  destruct c1, c2;
    repeat (rewrite ?testbit_uint8_t, ?Z.lor_spec, ?Z.land_spec, ?Z.lnot_spec,
              ?testbit_BV by lia);
    destruct (n <? 8), (n =? b), (Z.testbit x n); reflexivity.
Qed.

(** Clearing the bit a mode wrote gives the word back when the bit
    was clear in it. *)
Lemma mode_bit_cleared (x b : Z) (c : bool) :
  0 <= b -> is_uint8 x -> Z.testbit x b = false ->
  uint8_t (Z.land (uint8_t (if c then Z.lor x (_BV b) else Z.land x (Z.lnot (_BV b))))
                  (Z.lnot (_BV b))) = x.
Proof.
  intros Hb Hx Hclear. apply Z.bits_inj'. intros n Hn.
  rewrite testbit_uint8_t, Z.land_spec, testbit_uint8_t, Z.lnot_spec, testbit_BV by lia.
  destruct (Z.ltb_spec n 8) as [Hlt | Hge].
  - destruct (Z.eqb_spec n b) as [-> | Hne].
    + rewrite Hclear. cbn [negb]. now rewrite andb_false_r.
    + destruct c; rewrite ?Z.lor_spec, ?Z.land_spec, ?Z.lnot_spec, ?testbit_BV by lia;
        apply Z.eqb_neq in Hne; rewrite Hne; cbn [negb andb];
        now rewrite ?orb_false_r, ?andb_true_r.
  - cbn [andb]. symmetry. now apply testbit_high.
Qed.

(** X13. The last [attachInterrupt] on a pin wins: after two calls on
    the same resolved pin, the second with any callback that is not
    null, argument and mode, the table has the callbacks, the
    arguments and the two mode masks it would have after the second
    call alone. *)
Theorem last_attach_wins `{board : Board} (pin : Z) (p : port_id) (i : fin 8)
    (func1 func2 : callback) (arg1 arg2 : ptr) (mode1 mode2 : Z)
    (m m1 m12 m2 : Machine) :
  resolves pin p i -> func1 <> nullptr -> func2 <> nullptr ->
  attachInterrupt pin func1 arg1 mode1 m = Some m1 ->
  attachInterrupt pin func2 arg2 mode2 m1 = Some m12 ->
  attachInterrupt pin func2 arg2 mode2 m = Some m2 ->
  funcs (get p m12) = funcs (get p m2) /\
  args (get p m12) = args (get p m2) /\
  rising (get p m12) = rising (get p m2) /\
  falling (get p m12) = falling (get p m2).
Proof.
  intros Hres Hf1 Hf2 Hrun1 Hrun12 Hrun2.
  destruct (attachInterrupt_result pin p i func1 arg1 mode1 m Hres Hf1)
    as (x1 & Hx1 & Hfuncs1 & Hargs1 & Hrise1 & Hfall1 & _).
  assert (x1 = m1) by congruence. subst x1.
  destruct (attachInterrupt_result pin p i func2 arg2 mode2 m1 Hres Hf2)
    as (x12 & Hx12 & Hfuncs12 & Hargs12 & Hrise12 & Hfall12 & _).
  assert (x12 = m12) by congruence. subst x12.
  destruct (attachInterrupt_result pin p i func2 arg2 mode2 m Hres Hf2)
    as (x2 & Hx2 & Hfuncs2 & Hargs2 & Hrise2 & Hfall2 & _).
  assert (x2 = m2) by congruence. subst x2.
  pose proof (bit_of_range i) as Hi.
  rewrite Hfuncs12, Hargs12, Hrise12, Hfall12, Hfuncs1, Hargs1, Hrise1, Hfall1.
  rewrite Hfuncs2, Hargs2, Hrise2, Hfall2.
  rewrite !vinsert_twice, !mode_bit_overrides by lia.
  repeat split.
Qed.

Lemma last_attach_wins_witness :
  let m1 := Uno.returned (attachInterrupt (board := Uno.board) 9 1001 2001 3 Uno.reset) in
  let m12 := Uno.returned (attachInterrupt (board := Uno.board) 9 1005 2005 2 m1) in
  let m2 := Uno.returned (attachInterrupt (board := Uno.board) 9 1005 2005 2 Uno.reset) in
  funcs (get Port0 m12) = funcs (get Port0 m2) /\
  args (get Port0 m12) = args (get Port0 m2) /\
  rising (get Port0 m12) = rising (get Port0 m2) /\
  falling (get Port0 m12) = falling (get Port0 m2).
Proof.
  intros m1 m12 m2.
  apply (last_attach_wins (board := Uno.board) 9 Port0 1%fin 1001 1005 2001 2005 3 2
           Uno.reset m1 m12 m2 uno_pin9);
    [discriminate | discriminate | reflexivity | reflexivity | reflexivity].
Defined.

(** X14. [attachInterrupt] followed by [detachInterrupt] on a
    resolved pin whose slot was empty (callback and argument null,
    both mode bits clear, in 8-bit mode masks) gives the table back:
    its callbacks, arguments and mode masks are those before the two
    calls. *)
Theorem attach_then_detach_restores `{board : Board} (pin : Z) (p : port_id) (i : fin 8)
    (func : callback) (arg : ptr) (mode : Z) (m m1 m2 : Machine) :
  resolves pin p i -> func <> nullptr ->
  funcs (get p m) !!! i = nullptr ->
  args (get p m) !!! i = nullptr ->
  is_uint8 (rising (get p m)) -> Z.testbit (rising (get p m)) (bit_of i) = false ->
  is_uint8 (falling (get p m)) -> Z.testbit (falling (get p m)) (bit_of i) = false ->
  attachInterrupt pin func arg mode m = Some m1 ->
  detachInterrupt pin m1 = Some m2 ->
  funcs (get p m2) = funcs (get p m) /\
  args (get p m2) = args (get p m) /\
  rising (get p m2) = rising (get p m) /\
  falling (get p m2) = falling (get p m).
Proof.
  intros Hres Hf Hfunc Harg Hr8 Hr Hf8 Hfa Hrun1 Hrun2.
  destruct (attachInterrupt_result pin p i func arg mode m Hres Hf)
    as (x1 & Hx1 & Hfuncs1 & Hargs1 & Hrise1 & Hfall1 & _).
  assert (x1 = m1) by congruence. subst x1.
  destruct (detachInterrupt_result pin p i m1 Hres)
    as (x2 & Hx2 & Hfuncs2 & Hargs2 & Hrise2 & Hfall2 & _).
  assert (x2 = m2) by congruence. subst x2.
  pose proof (bit_of_range i) as Hi.
  rewrite Hfuncs2, Hargs2, Hrise2, Hfall2, Hfuncs1, Hargs1, Hrise1, Hfall1.
  rewrite <- Hfunc at 1. rewrite <- Harg at 1.
  rewrite !vinsert_back, !mode_bit_cleared by (auto; lia).
  repeat split.
Qed.

Lemma attach_then_detach_restores_witness :
  let m1 := Uno.returned (attachInterrupt (board := Uno.board) 10 1002 2002 1 Uno.armed) in
  let m2 := Uno.returned (detachInterrupt (board := Uno.board) 10 m1) in
  funcs (get Port0 m2) = funcs (get Port0 Uno.armed) /\
  args (get Port0 m2) = args (get Port0 Uno.armed) /\
  rising (get Port0 m2) = rising (get Port0 Uno.armed) /\
  falling (get Port0 m2) = falling (get Port0 Uno.armed).
Proof.
  intros m1 m2.
  apply (attach_then_detach_restores (board := Uno.board) 10 Port0 2%fin 1002 2002 1
           Uno.armed m1 m2 uno_pin10);
    [discriminate | reflexivity | reflexivity
    | unfold is_uint8; simpl; lia | reflexivity
    | unfold is_uint8; simpl; lia | reflexivity
    | vm_compute; reflexivity | vm_compute; reflexivity].
Defined.

Lemma load_range (reg : Z) (m : Machine) : is_uint8 (load reg m).
Proof. apply uint8_t_range. Qed.

Lemma set_bit_already (x b : Z) :
  0 <= b -> is_uint8 x -> Z.testbit x b = true -> uint8_t (Z.lor x (_BV b)) = x.
Proof.
  intros Hb Hx Hset. apply Z.bits_inj'. intros n Hn.
  rewrite testbit_set_bit by lia.
  destruct (Z.ltb_spec n 8) as [Hlt | Hge].
  - destruct (Z.eqb_spec n b) as [-> | Hne].
    + now rewrite Hset.
    + cbn [andb]. now rewrite orb_false_r.
  - cbn [andb]. symmetry. now apply testbit_high.
Qed.

Lemma set_bit_back (x b : Z) :
  0 <= b -> is_uint8 x -> Z.testbit x b = true ->
  uint8_t (Z.lor (uint8_t (Z.land x (Z.lnot (_BV b)))) (_BV b)) = x.
Proof.
  intros Hb Hx Hset. apply Z.bits_inj'. intros n Hn.
  rewrite testbit_set_bit, testbit_clear_bit by lia.
  destruct (Z.ltb_spec n 8) as [Hlt | Hge].
  - destruct (Z.eqb_spec n b) as [-> | Hne].
    + rewrite Hset. cbn [negb andb]. reflexivity.
    + cbn [negb andb]. now rewrite andb_true_r, orb_false_r.
  - cbn [andb]. symmetry. now apply testbit_high.
Qed.

(** X15. [disableInterrupt] followed by [enableInterrupt] on a
    resolved pin whose slot holds a callback, the mask and the control
    register being two registers, gives the registers back: the mask
    register is what it was when the pin's bit was set in it, the
    control register is what it was when the group's bit was set in
    it, and no other register has changed. *)
Theorem disable_then_enable_registers `{board : Board} (pin : Z) (p : port_id)
    (i : fin 8) (m m1 m2 : Machine) :
  resolves pin p i ->
  digitalPinToPCICR pin <> digitalPinToPCMSK pin ->
  funcs (get p m) !!! i <> nullptr ->
  disableInterrupt pin m = Some m1 ->
  enableInterrupt pin m1 = Some m2 ->
  (Z.testbit (load (digitalPinToPCMSK pin) m) (bit_of i) = true ->
   load (digitalPinToPCMSK pin) m2 = load (digitalPinToPCMSK pin) m) /\
  (Z.testbit (load (digitalPinToPCICR pin) m) (digitalPinToPCICRbit pin) = true ->
   load (digitalPinToPCICR pin) m2 = load (digitalPinToPCICR pin) m) /\
  (forall r, r <> digitalPinToPCMSK pin -> r <> digitalPinToPCICR pin ->
     load r m2 = load r m).
Proof.
  intros Hres Hne Hf Hrun1 Hrun2.
  destruct (disableInterrupt_result pin p i m Hres) as (x1 & Hx1 & Hget & Hsfr1 & _).
  assert (x1 = m1) by congruence. subst x1.
  assert (Hf1 : funcs (get p m1) !!! i <> 0) by now rewrite Hget.
  destruct (enableInterrupt_result pin p i m1 Hres Hf1)
    as (x2 & Hx2 & _ & _ & _ & _ & _ & Hsfr2 & _).
  assert (x2 = m2) by congruence. subst x2.
  pose proof (bit_of_range i) as Hi.
  pose proof (resolved_group pin p i Hres) as Hg.
  split; [ | split].
  - intros Hset.
    rewrite (load_eq_of_sfr _ _ _ Hsfr2).
    rewrite load_or_into_other, load_or_into_same by auto.
    rewrite (load_eq_of_sfr _ _ _ Hsfr1), load_masked_off_mask by assumption.
    apply set_bit_back; [lia | apply load_range | assumption].
  - intros Hset.
    rewrite (load_eq_of_sfr _ _ _ Hsfr2), load_or_into_same.
    rewrite load_or_into_other by auto.
    rewrite (load_eq_of_sfr _ _ _ Hsfr1), load_masked_off_control by assumption.
    destruct (_ =? 0).
    + apply set_bit_back; [lia | apply load_range | assumption].
    + apply set_bit_already; [lia | apply load_range | assumption].
  - intros r H1 H2.
    rewrite (load_other_registers _ _ _ _ r m1 m2 Hsfr2) by assumption.
    rewrite (load_eq_of_sfr _ _ _ Hsfr1). now apply load_masked_off_other.
Qed.

Lemma disable_then_enable_registers_witness :
  let m1 := Uno.returned (disableInterrupt (board := Uno.board) 9 Uno.armed) in
  let m2 := Uno.returned (enableInterrupt (board := Uno.board) 9 m1) in
  load Uno.PCMSK0 m2 = load Uno.PCMSK0 Uno.armed /\
  load Uno.PCICR m2 = load Uno.PCICR Uno.armed.
Proof.
  intros m1 m2.
  destruct (disable_then_enable_registers (board := Uno.board) 9 Port0 1%fin
              Uno.armed m1 m2 uno_pin9) as (Hmask & Hcontrol & _).
  - discriminate.
  - discriminate.
  - vm_compute; reflexivity.
  - vm_compute; reflexivity.
  - split; [apply Hmask | apply Hcontrol]; reflexivity.
Defined.

(** ** detachInterrupt against the handlers *)

Section CriticalSection.

Context {board : Board}.
Variable user_code : callback -> ptr -> bool -> Machine -> Machine.
Variables (p : port_id) (pcmsk : Z) (CODE : thread -> thread).
Variables (pre post : registration).
Hypothesis Hkeeps : keeps_registration user_code p pcmsk.
Hypothesis Hcode :
  forall sreg m,
    interrupts_enabled m = false ->
    registration_of p pcmsk m = pre ->
    closes p pcmsk post (CODE (set_SREG sreg ;> Ret)) m.

Lemma critical_stage_step (t t' : thread) (m m' : Machine) :
  istep user_code (t, m) (t', m') ->
  critical_stage p pcmsk CODE pre post t m ->
  critical_stage p pcmsk CODE pre post t' m'.
Proof.
  intros Hstep Hstage.
  inversion Hstep as [f k m1 | t1 m1 q reg m2 log Hon Hreg Hisr]; subst.
  - inversion Hstage as [m0 Hpre | sreg m0 Hpre | t0 m0 Hoff Hcl | m0 Hpost].
    + now apply critical_saved.
    + apply critical_inside.
      * apply interrupts_enabled_noInterrupts.
      * apply Hcode; [apply interrupts_enabled_noInterrupts | ].
        now rewrite registration_of_noInterrupts.
    + inversion Hcl as [f1 m1 Hpost | f1 k1 m1 Hoff' Hrest].
      * now apply critical_returned.
      * now apply critical_inside.
  - pose proof (IMPLEMENT_ISR_registration user_code p q _ reg m m' log Hkeeps Hisr)
      as Hsame.
    inversion Hstage as [m0 Hpre | sreg m0 Hpre | t0 m0 Hoff Hcl | m0 Hpost].
    + apply critical_called. now rewrite Hsame.
    + apply critical_saved. now rewrite Hsame.
    + congruence.
    + apply critical_returned. now rewrite Hsame.
Qed.

Lemma critical_stage_steps (c c' : thread * Machine) :
  isteps user_code c c' ->
  critical_stage p pcmsk CODE pre post (fst c) (snd c) ->
  critical_stage p pcmsk CODE pre post (fst c') (snd c').
Proof.
  induction 1 as [c | [t1 m1] [t2 m2] c3 Hstep Hrest IH]; intros Hstage.
  - assumption.
  - apply IH. simpl in *. now apply critical_stage_step with (t := t1) (m := m1).
Qed.

Lemma critical_stage_observed (t : thread) (m : Machine) :
  critical_stage p pcmsk CODE pre post t m ->
  interrupts_enabled m = true ->
  registration_of p pcmsk m = pre \/ registration_of p pcmsk m = post.
Proof.
  intros Hstage Hon.
  inversion Hstage as [m0 Hpre | sreg m0 Hpre | t0 m0 Hoff Hcl | m0 Hpost];
    auto; congruence.
Qed.

End CriticalSection.

Lemma closes_mask_off `{board : Board} (p : port_id) (pin pcicr pcmsk bitmask sreg : Z)
    (post : registration) (m : Machine) :
  interrupts_enabled m = false ->
  (forall m', get p m' = get p m ->
              load pcmsk m' = uint8_t (Z.land (load pcmsk m) (Z.lnot bitmask)) ->
              registration_of p pcmsk m' = post) ->
  closes p pcmsk post (mask_off pin pcicr pcmsk bitmask (set_SREG sreg ;> Ret)) m.
Proof.
  intros Hoff Hpost. unfold mask_off.
  apply closes_step; [exact Hoff | ].
  apply closes_step; [exact Hoff | ].
  destruct (truthy (load pcmsk (and_into pcmsk (Z.lnot bitmask) m))) eqn:Hz; cbn [negb].
  - apply closes_last. apply Hpost.
    + now rewrite get_set_SREG, get_and_into.
    + rewrite load_set_SREG. apply load_and_into_same.
  - apply truthy_false in Hz.
    apply closes_step; [exact Hoff | ].
    apply closes_last. apply Hpost.
    + now rewrite get_set_SREG, !get_and_into.
    + rewrite load_set_SREG, <- load_and_into_same.
      destruct (Z.eq_dec pcicr pcmsk) as [-> | Hne].
      * rewrite load_and_into_same, Hz. reflexivity.
      * now rewrite load_and_into_other by auto.
Qed.

Lemma detach_code_closes `{board : Board} (pin : Z) (p : port_id) (i : fin 8)
    (sreg : Z) (m : Machine) :
  interrupts_enabled m = false ->
  closes p (digitalPinToPCMSK pin)
    (detach_registration i (registration_of p (digitalPinToPCMSK pin) m))
    (detach_code p i pin (digitalPinToPCICR pin) (digitalPinToPCMSK pin)
       (_BV (bit_of i)) (set_SREG sreg ;> Ret)) m.
Proof.
  intros Hoff. unfold detach_code.
  do 4 (apply closes_step; [destruct p; exact Hoff | ]).
  apply closes_mask_off; [destruct p; exact Hoff | ].
  intros m' Hget Hload.
  unfold registration_of, detach_registration.
  rewrite Hget, Hload. autorewrite with machine. port_fields.
  cbn [reg_funcs reg_args reg_rising reg_falling reg_mask]. reflexivity.
Qed.

Lemma detachInterrupt_thread_resolved `{board : Board} (pin : Z) (p : port_id)
    (i : fin 8) :
  resolves pin p i ->
  detachInterrupt_thread pin =
  WITHOUT_INTERRUPTION
    (detach_code p i pin (digitalPinToPCICR pin) (digitalPinToPCMSK pin)
       (_BV (bit_of i))).
Proof.
  intros Hres. unfold detachInterrupt_thread.
  rewrite (resolved_mask pin p i Hres).
  destruct Hres as [Hc Hm Hg Hp Hb]. rewrite Hp, Hb.
  apply truthy_true in Hc, Hm. now rewrite Hc, Hm.
Qed.

(** X16. [detachInterrupt] on a resolved pin, run step by step with
    the handlers of the board's groups started between any two steps
    at which the I flag is set, and with callbacks that leave the
    registration of the pin's group alone: on every machine that is
    reached and on which a handler can start, the registration of the
    group is the one at the call or the one the call leaves when
    nothing interrupts it; no handler starts on a slot that is
    half cleared. *)
Theorem detachInterrupt_never_torn `{board : Board}
    (user_code : callback -> ptr -> bool -> Machine -> Machine)
    (pin : Z) (p : port_id) (i : fin 8) (m0 : Machine) (t : thread) (m : Machine) :
  resolves pin p i ->
  keeps_registration user_code p (digitalPinToPCMSK pin) ->
  isteps user_code (detachInterrupt_thread pin, m0) (t, m) ->
  interrupts_enabled m = true ->
  registration_of p (digitalPinToPCMSK pin) m =
    registration_of p (digitalPinToPCMSK pin) m0 \/
  exists m',
    detachInterrupt pin m0 = Some m' /\
    registration_of p (digitalPinToPCMSK pin) m =
      registration_of p (digitalPinToPCMSK pin) m'.
Proof.
  intros Hres Hkeeps Hsteps Hon.
  rewrite (detachInterrupt_thread_resolved pin p i Hres) in Hsteps.
  set (pre := registration_of p (digitalPinToPCMSK pin) m0).
  assert (Hcode : forall sreg x,
            interrupts_enabled x = false ->
            registration_of p (digitalPinToPCMSK pin) x = pre ->
            closes p (digitalPinToPCMSK pin) (detach_registration i pre)
              (detach_code p i pin (digitalPinToPCICR pin) (digitalPinToPCMSK pin)
                 (_BV (bit_of i)) (set_SREG sreg ;> Ret)) x).
  { intros sreg x Hoff Hpre. rewrite <- Hpre. now apply detach_code_closes. }
  pose proof (critical_stage_steps user_code p _ _ pre (detach_registration i pre)
                Hkeeps Hcode _ _ Hsteps (critical_called _ _ _ _ _ m0 eq_refl))
    as Hstage.
  destruct (critical_stage_observed p _ _ pre _ t m Hstage Hon) as [Hpre | Hpost].
  - now left.
  - right.
    destruct (closes_runs _ _ _ _ _
                (Hcode (uint8_t (SREG m0)) (noInterrupts m0)
                   (interrupts_enabled_noInterrupts m0)
                   (registration_of_noInterrupts p _ m0)))
      as (m' & Hrun & Hreg).
    exists m'. split.
    + now rewrite (detachInterrupt_runs pin p i Hres).
    + now rewrite Hpost, Hreg.
Qed.

Lemma detachInterrupt_never_torn_witness :
  exists m,
    isteps (board := Uno.board) Uno.led
      (detachInterrupt_thread (board := Uno.board) 9, Uno.armed) (Ret, m) /\
    (registration_of Port0 Uno.PCMSK0 m = registration_of Port0 Uno.PCMSK0 Uno.armed \/
     exists m',
       detachInterrupt (board := Uno.board) 9 Uno.armed = Some m' /\
       registration_of Port0 Uno.PCMSK0 m = registration_of Port0 Uno.PCMSK0 m').
Proof.
  assert (Hreach :
    { m | isteps (board := Uno.board) Uno.led
            (detachInterrupt_thread (board := Uno.board) 9, Uno.armed) (Ret, m) /\
          interrupts_enabled m = true }).
  { eexists. split.
    - eapply isteps_step.
      + eapply (istep_interrupt (board := Uno.board) Uno.led _ Uno.armed Port0 Uno.PINB);
          reflexivity.
      + apply run_isteps. reflexivity.
    - reflexivity. }
  destruct Hreach as (m & Hsteps & Hon).
  exists m. split; [exact Hsteps | ].
  apply (detachInterrupt_never_torn (board := Uno.board) Uno.led 9 Port0 1%fin
           Uno.armed Ret m uno_pin9).
  - apply led_keeps_registration.
  - exact Hsteps.
  - exact Hon.
Defined.

(** ** Before the first attach, and after a detach *)

(** X17. At startup, before any registration function has run, a run
    of the handler of any group makes no call, whatever the input
    register holds and whatever the callbacks would do, and leaves the
    machine with the value read as that group's snapshot and nothing
    else changed. *)
Theorem startup_handler_silent
    (user_code : callback -> ptr -> bool -> Machine -> Machine)
    (sreg : Z) (regs : Z -> Z) (p : port_id) (pin_register : Z) :
  IMPLEMENT_ISR user_code p pin_register (startup sreg regs) =
  Some (upd_port p (set_state (load pin_register (startup sreg regs)))
          (startup sreg regs), []).
Proof.
  unfold IMPLEMENT_ISR. fold (load pin_register (startup sreg regs)).
  rewrite (isr_loop_fold user_code p (get p (startup sreg regs))
             (load pin_register (startup sreg regs)) 0 slots remaining_all)
    by (simpl; lia).
  assert (Hquiet : forall i acc,
            spec_deliver_slot user_code p (get p (startup sreg regs))
              (load pin_register (startup sreg regs)) acc i = acc).
  { intros i acc. unfold spec_deliver_slot, bit_triggers.
    replace (rising (get p (startup sreg regs))) with 0 by (destruct p; reflexivity).
    replace (falling (get p (startup sreg regs))) with 0 by (destruct p; reflexivity).
    rewrite Z.bits_0. cbn [andb orb]. now rewrite andb_false_r. }
  unfold slots. cbn [fold_left]. now rewrite !Hquiet.
Qed.

(** X18. After [detachInterrupt] on a resolved pin, [enableInterrupt]
    on that pin is discarded: it returns the machine it was given, so
    a detached pin is armed again by [attachInterrupt] only. *)
Theorem detach_then_enable_discarded `{board : Board} (pin : Z) (p : port_id)
    (i : fin 8) (m m' : Machine) :
  resolves pin p i ->
  detachInterrupt pin m = Some m' ->
  enableInterrupt pin m' = Some m'.
Proof.
  intros Hres Hrun.
  destruct (detachInterrupt_result pin p i m Hres) as (x & Hx & Hfuncs & _).
  assert (x = m') by congruence. subst x.
  assert (Hnull : funcs (get p m') !!! i = nullptr).
  { rewrite Hfuncs. apply vlookup_insert. }
  destruct Hres as [Hc Hm Hg Hp Hb].
  unfold enableInterrupt, enableInterrupt_thread.
  rewrite Hp, Hb. apply truthy_true in Hc, Hm. rewrite Hc, Hm.
  cbn [andb run]. rewrite Hnull. reflexivity.
Qed.

Lemma detach_then_enable_discarded_witness :
  let m' := Uno.returned (detachInterrupt (board := Uno.board) 9 Uno.armed) in
  enableInterrupt (board := Uno.board) 9 m' = Some m'.
Proof.
  intros m'.
  apply (detach_then_enable_discarded (board := Uno.board) 9 Port0 1%fin Uno.armed m'
           uno_pin9).
  vm_compute; reflexivity.
Defined.

(** X19. [enableInterrupt] on a resolved pin whose slot holds a
    callback leaves the rest alone: the tables of the other groups,
    every register but the mask and the control register, and, when
    these are two registers, the mask bits of the seven other
    slots. *)
Theorem enableInterrupt_frame `{board : Board} (pin : Z) (p : port_id) (i : fin 8)
    (m m' : Machine) :
  resolves pin p i ->
  funcs (get p m) !!! i <> nullptr ->
  enableInterrupt pin m = Some m' ->
  (forall q, q <> p -> get q m' = get q m) /\
  (forall r, r <> digitalPinToPCMSK pin -> r <> digitalPinToPCICR pin ->
     load r m' = load r m) /\
  (digitalPinToPCICR pin <> digitalPinToPCMSK pin ->
   forall j : fin 8, j <> i ->
     Z.testbit (load (digitalPinToPCMSK pin) m') (bit_of j) =
     Z.testbit (load (digitalPinToPCMSK pin) m) (bit_of j)).
Proof.
  intros Hres Hf Hrun.
  destruct (enableInterrupt_result pin p i m Hres Hf)
    as (m1 & Hrun1 & _ & _ & _ & _ & _ & Hsfr & _).
  assert (m1 = m') by congruence. subst m1.
  pose proof (bit_of_range i) as Hi.
  split; [ | split].
  - intros q Hq. rewrite (enableInterrupt_runs pin p i Hres) in Hrun by assumption.
    cbn [run enable_code] in Hrun. injection Hrun as <-.
    destruct p, q; try (exfalso; apply Hq; reflexivity); reflexivity.
  - intros r H1 H2. now apply load_other_registers with (1 := Hsfr).
  - intros Hne j Hj. pose proof (bit_of_range j) as Hjr.
    rewrite (load_eq_of_sfr _ _ _ Hsfr).
    rewrite load_or_into_other by auto.
    rewrite load_or_into_same, testbit_set_bit by lia.
    rewrite (bit_of_eqb i j) by auto. rewrite orb_false_r.
    unfold load. rewrite testbit_uint8_t. now rewrite andb_assoc, andb_diag.
Qed.

Lemma enableInterrupt_frame_witness :
  let m' := Uno.returned (enableInterrupt (board := Uno.board) 9 Uno.armed) in
  get Port2 m' = get Port2 Uno.armed /\
  load Uno.PINB m' = load Uno.PINB Uno.armed.
Proof.
  intros m'.
  destruct (enableInterrupt_frame (board := Uno.board) 9 Port0 1%fin Uno.armed m'
              uno_pin9 ltac:(discriminate) ltac:(vm_compute; reflexivity))
    as (Htables & Hregs & _).
  split.
  - apply Htables. discriminate.
  - apply Hregs; discriminate.
Defined.
